(** * orca/server_metrics.go: the ORCA server metrics value and its recorder

    A shallow embedding of [ServerMetrics], [toLoadReportProto], [merge],
    [mergeMap], [copyMap] and the methods of [serverMetricsRecorder].

    Go maps and struct pointers are references, so the embedding threads an
    explicit heap through every function: a [map[string]float64] value is
    either nil or the address of a map object, a [*ServerMetrics] is the
    address of a struct object, and two values alias when they hold the same
    address. *)

From Stdlib Require Import Floats.PrimFloat.
From stdpp Require Import base option gmap strings list.

(** * The program *)

(** ** float64 *)

(** Go's [float64] is IEEE-754 binary64, as are Rocq's primitive floats.  The
    Go operator [!=] is the IEEE comparison: it holds of a NaN and anything. *)
Abbreviation float64 := PrimFloat.float (only parsing).

Module Float64.

Definition neq (x y : float64) : bool := negb (PrimFloat.eqb x y).

End Float64.

Infix "!=" := Float64.neq (at level 70, no associativity).

(** ** Heap objects *)

Abbreviation loc := positive (only parsing).

(** A value of Go type [map[string]float64]. *)
Inductive gomap :=
  | nilmap
  | mapref (l : loc).

Global Instance gomap_eq_dec : EqDecision gomap.
Proof. solve_decision. Defined.

Record ServerMetrics := mkServerMetrics {
  CPUUtilization : float64;
  MemUtilization : float64;
  QPS : float64;
  EPS : float64;
  Utilization : gomap;
  RequestCost : gomap;
  NamedMetrics : gomap
}.

Module v3orcapb.

(** Modelled from the spec: the message type [OrcaLoadReport] of the imported
    package [v3orcapb] (github.com/cncf/xds), generated code that is no part
    of this repository.  Following the
    load-report shape of the spec (section 6), each scalar field is either
    omitted ([None]: the struct literal of [toLoadReportProto] does not mention
    it and no branch assigns it) or included with a value ([Some v]); the three
    map fields are always there and hold a Go map value. *)
Record OrcaLoadReport := mkOrcaLoadReport {
  CpuUtilization : option float64;
  MemUtilization : option float64;
  RpsFractional : option float64;
  Eps : option float64;
  Utilization : gomap;
  RequestCost : gomap;
  NamedMetrics : gomap
}.

End v3orcapb.

(** [mu] is the state of the [sync.Mutex]: [true] while it is held. *)
Record serverMetricsRecorder := mkRecorder {
  mu : bool;
  state : loc
}.

Record heap := mkHeap {
  maps : gmap loc (gmap string float64);
  metrics : gmap loc ServerMetrics;
  recorders : gmap loc serverMetricsRecorder;
  reports : gmap loc v3orcapb.OrcaLoadReport
}.

Definition empty_heap : heap := mkHeap ∅ ∅ ∅ ∅.

Definition with_maps (f : gmap loc (gmap string float64) → gmap loc (gmap string float64))
    (h : heap) : heap :=
  mkHeap (f (maps h)) (metrics h) (recorders h) (reports h).

Definition with_metrics (f : gmap loc ServerMetrics → gmap loc ServerMetrics)
    (h : heap) : heap :=
  mkHeap (maps h) (f (metrics h)) (recorders h) (reports h).

Definition with_recorders
    (f : gmap loc serverMetricsRecorder → gmap loc serverMetricsRecorder)
    (h : heap) : heap :=
  mkHeap (maps h) (metrics h) (f (recorders h)) (reports h).

Definition with_reports
    (f : gmap loc v3orcapb.OrcaLoadReport → gmap loc v3orcapb.OrcaLoadReport)
    (h : heap) : heap :=
  mkHeap (maps h) (metrics h) (recorders h) (f (reports h)).

(** ** The monad of Go functions *)

(** A call either returns a value and a heap, panics (assignment to an entry
    of a nil map, nil pointer dereference, unlock of an unlocked mutex), or
    blocks for ever on a mutex that is held. *)
Inductive outcome (A : Type) :=
  | Returns (a : A) (h : heap)
  | Panics
  | Blocks.
Global Arguments Returns {A} a h.
Global Arguments Panics {A}.
Global Arguments Blocks {A}.

Definition go (A : Type) : Type := heap → outcome A.

Definition go_ret {A} (a : A) : go A := λ h, Returns a h.

Definition go_bind {A B} (f : A → go B) (m : go A) : go B :=
  λ h, match m h with
       | Returns a h' => f a h'
       | Panics => Panics
       | Blocks => Blocks
       end.

Global Instance go_mret : MRet go := @go_ret.
Global Instance go_mbind : MBind go := @go_bind.

(** ** Primitive heap operations *)

(** [*p] for [p : *ServerMetrics]. *)
Definition load_metrics (p : loc) : go ServerMetrics :=
  λ h, match metrics h !! p with
       | Some sm => Returns sm h
       | None => Panics
       end.

(** [p.F = v], written as the update [f] of the struct [p] points to. *)
Definition update_metrics (p : loc) (f : ServerMetrics → ServerMetrics) : go unit :=
  λ h, match metrics h !! p with
       | Some sm => Returns () (with_metrics <[p := f sm]> h)
       | None => Panics
       end.

(** [&ServerMetrics{...}] *)
Definition new_metrics (sm : ServerMetrics) : go loc :=
  λ h, let p := fresh (dom (metrics h)) in
       Returns p (with_metrics <[p := sm]> h).

(** [make(map[string]float64)]; a capacity hint does not change the value. *)
Definition make_map : go gomap :=
  λ h, let l := fresh (dom (maps h)) in
       Returns (mapref l) (with_maps <[l := ∅]> h).

(** The entries a [for k, v := range m] statement visits.  A nil map has
    none.  Go leaves the order unspecified; [map_to_list] fixes one, and
    [for_range_assign_perm] below shows the loops of this file do not depend
    on it. *)
Definition range_entries (m : gomap) : go (list (string * float64)) :=
  λ h, match m with
       | nilmap => Returns [] h
       | mapref l =>
           match maps h !! l with
           | Some c => Returns (map_to_list c) h
           | None => Panics
           end
       end.

(** [m[k] = v]: panics on a nil map. *)
Definition map_assign (m : gomap) (k : string) (v : float64) : go unit :=
  λ h, match m with
       | nilmap => Panics
       | mapref l =>
           match maps h !! l with
           | Some c => Returns () (with_maps <[l := <[k := v]> c]> h)
           | None => Panics
           end
       end.

(** [delete(m, k)]: a no-op on a nil map and on a missing key. *)
Definition map_delete (m : gomap) (k : string) : go unit :=
  λ h, match m with
       | nilmap => Returns () h
       | mapref l =>
           match maps h !! l with
           | Some c => Returns () (with_maps <[l := delete k c]> h)
           | None => Panics
           end
       end.

(** The body of a [for k, v := range] loop run on each entry in turn. *)
Fixpoint for_range (es : list (string * float64)) (body : string → float64 → go unit)
    : go unit :=
  match es with
  | [] => mret ()
  | (k, v) :: es' => body k v ;; for_range es' body
  end.

(** ** ServerMetrics *)

Definition set_CPUUtilization (v : float64) (sm : ServerMetrics) : ServerMetrics :=
  mkServerMetrics v (MemUtilization sm) (QPS sm) (EPS sm)
    (Utilization sm) (RequestCost sm) (NamedMetrics sm).

Definition set_MemUtilization (v : float64) (sm : ServerMetrics) : ServerMetrics :=
  mkServerMetrics (CPUUtilization sm) v (QPS sm) (EPS sm)
    (Utilization sm) (RequestCost sm) (NamedMetrics sm).

Definition set_QPS (v : float64) (sm : ServerMetrics) : ServerMetrics :=
  mkServerMetrics (CPUUtilization sm) (MemUtilization sm) v (EPS sm)
    (Utilization sm) (RequestCost sm) (NamedMetrics sm).

Definition set_EPS (v : float64) (sm : ServerMetrics) : ServerMetrics :=
  mkServerMetrics (CPUUtilization sm) (MemUtilization sm) (QPS sm) v
    (Utilization sm) (RequestCost sm) (NamedMetrics sm).

(** [when c body]: [if c { body }]. *)
Definition when (c : bool) (body : go unit) : go unit :=
  if c then body else mret ().

(** func mergeMap(a, b map[string]float64) *)
Definition mergeMap (a b : gomap) : go unit :=
  es ← range_entries b;
  for_range es (λ k v, map_assign a k v).

(** func (sm *ServerMetrics) merge(o *ServerMetrics) *)
Definition merge (sm o : loc) : go unit :=
  o_ ← load_metrics o;
  when (CPUUtilization o_ != -1)
    (update_metrics sm (set_CPUUtilization (CPUUtilization o_))) ;;
  o_ ← load_metrics o;
  when (MemUtilization o_ != -1)
    (update_metrics sm (set_MemUtilization (MemUtilization o_))) ;;
  o_ ← load_metrics o;
  when (QPS o_ != -1)
    (update_metrics sm (set_QPS (QPS o_))) ;;
  o_ ← load_metrics o;
  when (EPS o_ != -1)
    (update_metrics sm (set_EPS (EPS o_))) ;;
  sm_ ← load_metrics sm;
  o_ ← load_metrics o;
  mergeMap (Utilization sm_) (Utilization o_) ;;
  sm_ ← load_metrics sm;
  o_ ← load_metrics o;
  mergeMap (RequestCost sm_) (RequestCost o_) ;;
  sm_ ← load_metrics sm;
  o_ ← load_metrics o;
  mergeMap (NamedMetrics sm_) (NamedMetrics o_).

(** [*p], [p.F = v] and [&v3orcapb.OrcaLoadReport{...}] for load reports. *)
Definition load_report (p : loc) : go v3orcapb.OrcaLoadReport :=
  λ h, match reports h !! p with
       | Some r => Returns r h
       | None => Panics
       end.

Definition update_report (p : loc)
    (f : v3orcapb.OrcaLoadReport → v3orcapb.OrcaLoadReport) : go unit :=
  λ h, match reports h !! p with
       | Some r => Returns () (with_reports <[p := f r]> h)
       | None => Panics
       end.

Definition new_report (r : v3orcapb.OrcaLoadReport) : go loc :=
  λ h, let p := fresh (dom (reports h)) in
       Returns p (with_reports <[p := r]> h).

Definition set_CpuUtilization (v : float64) (r : v3orcapb.OrcaLoadReport) :=
  v3orcapb.mkOrcaLoadReport (Some v) (v3orcapb.MemUtilization r)
    (v3orcapb.RpsFractional r) (v3orcapb.Eps r)
    (v3orcapb.Utilization r) (v3orcapb.RequestCost r) (v3orcapb.NamedMetrics r).

Definition set_pbMemUtilization (v : float64) (r : v3orcapb.OrcaLoadReport) :=
  v3orcapb.mkOrcaLoadReport (v3orcapb.CpuUtilization r) (Some v)
    (v3orcapb.RpsFractional r) (v3orcapb.Eps r)
    (v3orcapb.Utilization r) (v3orcapb.RequestCost r) (v3orcapb.NamedMetrics r).

Definition set_RpsFractional (v : float64) (r : v3orcapb.OrcaLoadReport) :=
  v3orcapb.mkOrcaLoadReport (v3orcapb.CpuUtilization r) (v3orcapb.MemUtilization r)
    (Some v) (v3orcapb.Eps r)
    (v3orcapb.Utilization r) (v3orcapb.RequestCost r) (v3orcapb.NamedMetrics r).

Definition set_Eps (v : float64) (r : v3orcapb.OrcaLoadReport) :=
  v3orcapb.mkOrcaLoadReport (v3orcapb.CpuUtilization r) (v3orcapb.MemUtilization r)
    (v3orcapb.RpsFractional r) (Some v)
    (v3orcapb.Utilization r) (v3orcapb.RequestCost r) (v3orcapb.NamedMetrics r).

(** func (sm *ServerMetrics) toLoadReportProto() *v3orcapb.OrcaLoadReport *)
Definition toLoadReportProto (sm : loc) : go loc :=
  sm_ ← load_metrics sm;
  ret ← new_report (v3orcapb.mkOrcaLoadReport None None None None
                      (Utilization sm_) (RequestCost sm_) (NamedMetrics sm_));
  sm_ ← load_metrics sm;
  when (CPUUtilization sm_ != -1)
    (update_report ret (set_CpuUtilization (CPUUtilization sm_))) ;;
  sm_ ← load_metrics sm;
  when (MemUtilization sm_ != -1)
    (update_report ret (set_pbMemUtilization (MemUtilization sm_))) ;;
  sm_ ← load_metrics sm;
  when (QPS sm_ != -1)
    (update_report ret (set_RpsFractional (QPS sm_))) ;;
  sm_ ← load_metrics sm;
  when (EPS sm_ != -1)
    (update_report ret (set_Eps (EPS sm_))) ;;
  mret ret.

(** ** serverMetricsRecorder *)

Definition load_recorder (s : loc) : go serverMetricsRecorder :=
  λ h, match recorders h !! s with
       | Some r => Returns r h
       | None => Panics
       end.

Definition new_recorder (r : serverMetricsRecorder) : go loc :=
  λ h, let s := fresh (dom (recorders h)) in
       Returns s (with_recorders <[s := r]> h).

(** [s.mu.Lock()]: waits while the mutex is held; run by the only thread
    there is, a held mutex is never released, and the call blocks. *)
Definition Lock (s : loc) : go unit :=
  λ h, match recorders h !! s with
       | Some r =>
           if mu r then Blocks
           else Returns () (with_recorders <[s := mkRecorder true (state r)]> h)
       | None => Panics
       end.

(** [s.mu.Unlock()]: a fatal error when the mutex is not held. *)
Definition Unlock (s : loc) : go unit :=
  λ h, match recorders h !! s with
       | Some r =>
           if mu r then Returns () (with_recorders <[s := mkRecorder false (state r)]> h)
           else Panics
       | None => Panics
       end.

(** [s.mu.Lock(); defer s.mu.Unlock(); body]: the deferred call runs when
    the body has returned, before the method does. *)
Definition locked {A} (s : loc) (body : go A) : go A :=
  Lock s ;;
  a ← body;
  Unlock s ;;
  mret a.

(** [s.state] *)
Definition load_state (s : loc) : go loc :=
  r ← load_recorder s;
  mret (state r).

(** func newServerMetricsRecorder() *serverMetricsRecorder *)
Definition newServerMetricsRecorder : go loc :=
  u ← make_map;
  c ← make_map;
  n ← make_map;
  st ← new_metrics (mkServerMetrics (-1) (-1) (-1) (-1) u c n);
  new_recorder (mkRecorder false st).

(** func NewServerMetricsRecorder() ServerMetricsRecorder *)
Definition NewServerMetricsRecorder : go loc :=
  newServerMetricsRecorder.

(** func copyMap(m map[string]float64) map[string]float64 *)
Definition copyMap (m : gomap) : go gomap :=
  ret ← make_map;
  es ← range_entries m;
  for_range es (λ k v, map_assign ret k v) ;;
  mret ret.

Module Recorder.

(** func (s *serverMetricsRecorder) ServerMetrics() *ServerMetrics *)
Definition ServerMetrics (s : loc) : go loc :=
  locked s (
    st ← load_state s; st_ ← load_metrics st;
    let cpu := CPUUtilization st_ in
    st ← load_state s; st_ ← load_metrics st;
    let mem := MemUtilization st_ in
    st ← load_state s; st_ ← load_metrics st;
    let qps := QPS st_ in
    st ← load_state s; st_ ← load_metrics st;
    let eps := EPS st_ in
    st ← load_state s; st_ ← load_metrics st;
    u ← copyMap (Utilization st_);
    st ← load_state s; st_ ← load_metrics st;
    c ← copyMap (RequestCost st_);
    st ← load_state s; st_ ← load_metrics st;
    n ← copyMap (NamedMetrics st_);
    new_metrics (mkServerMetrics cpu mem qps eps u c n)).

(** func (s *serverMetricsRecorder) SetCPUUtilization(val float64) *)
Definition SetCPUUtilization (s : loc) (val : float64) : go unit :=
  locked s (st ← load_state s; update_metrics st (set_CPUUtilization val)).

(** func (s *serverMetricsRecorder) DeleteCPUUtilization() *)
Definition DeleteCPUUtilization (s : loc) : go unit :=
  SetCPUUtilization s (-1).

(** func (s *serverMetricsRecorder) SetMemoryUtilization(val float64) *)
Definition SetMemoryUtilization (s : loc) (val : float64) : go unit :=
  locked s (st ← load_state s; update_metrics st (set_MemUtilization val)).

(** func (s *serverMetricsRecorder) DeleteMemoryUtilization() *)
Definition DeleteMemoryUtilization (s : loc) : go unit :=
  SetMemoryUtilization s (-1).

(** func (s *serverMetricsRecorder) SetQPS(val float64) *)
Definition SetQPS (s : loc) (val : float64) : go unit :=
  locked s (st ← load_state s; update_metrics st (set_QPS val)).

(** func (s *serverMetricsRecorder) DeleteQPS() *)
Definition DeleteQPS (s : loc) : go unit :=
  SetQPS s (-1).

(** func (s *serverMetricsRecorder) SetEPS(val float64) *)
Definition SetEPS (s : loc) (val : float64) : go unit :=
  locked s (st ← load_state s; update_metrics st (set_EPS val)).

(** func (s *serverMetricsRecorder) DeleteEPS() *)
Definition DeleteEPS (s : loc) : go unit :=
  SetEPS s (-1).

(** func (s *serverMetricsRecorder) SetNamedUtilization(name string, val float64) *)
Definition SetNamedUtilization (s : loc) (name : string) (val : float64) : go unit :=
  locked s (st ← load_state s; st_ ← load_metrics st;
            map_assign (Utilization st_) name val).

(** func (s *serverMetricsRecorder) DeleteNamedUtilization(name string) *)
Definition DeleteNamedUtilization (s : loc) (name : string) : go unit :=
  locked s (st ← load_state s; st_ ← load_metrics st;
            map_delete (Utilization st_) name).

(** func (s *serverMetricsRecorder) SetRequestCost(name string, val float64) *)
Definition SetRequestCost (s : loc) (name : string) (val : float64) : go unit :=
  locked s (st ← load_state s; st_ ← load_metrics st;
            map_assign (RequestCost st_) name val).

(** func (s *serverMetricsRecorder) DeleteRequestCost(name string) *)
Definition DeleteRequestCost (s : loc) (name : string) : go unit :=
  locked s (st ← load_state s; st_ ← load_metrics st;
            map_delete (RequestCost st_) name).

(** func (s *serverMetricsRecorder) SetNamedMetric(name string, val float64) *)
Definition SetNamedMetric (s : loc) (name : string) (val : float64) : go unit :=
  locked s (st ← load_state s; st_ ← load_metrics st;
            map_assign (NamedMetrics st_) name val).

(** func (s *serverMetricsRecorder) DeleteNamedMetric(name string) *)
Definition DeleteNamedMetric (s : loc) (name : string) : go unit :=
  locked s (st ← load_state s; st_ ← load_metrics st;
            map_delete (NamedMetrics st_) name).

End Recorder.

(** * Vocabulary of the statements *)

(** ** Reading the heap *)

(** The entries of a map value; a nil map reads as the empty map. *)
Definition contents (h : heap) (m : gomap) : option (gmap string float64) :=
  match m with
  | nilmap => Some ∅
  | mapref l => maps h !! l
  end.

(** What an observer reads off a [ServerMetrics]: the four scalars and the
    entries of the three maps. *)
Record MetricsValue := mkValue {
  cpu_utilization : float64;
  mem_utilization : float64;
  qps : float64;
  eps : float64;
  utilization : gmap string float64;
  request_cost : gmap string float64;
  named_metrics : gmap string float64
}.

Definition value_of (h : heap) (S : ServerMetrics) : option MetricsValue :=
  u ← contents h (Utilization S);
  c ← contents h (RequestCost S);
  n ← contents h (NamedMetrics S);
  Some (mkValue (CPUUtilization S) (MemUtilization S) (QPS S) (EPS S) u c n).

Definition value_at (h : heap) (p : loc) : option MetricsValue :=
  metrics h !! p ≫= value_of h.

(** The "unset" default: every scalar -1, every map empty. *)
Definition unset_value : MetricsValue :=
  mkValue (-1) (-1) (-1) (-1) ∅ ∅ ∅.

(** The three map fields of a struct. *)
Definition map_fields (S : ServerMetrics) : list gomap :=
  [Utilization S; RequestCost S; NamedMetrics S].

(** [m] is a map object of the heap (so not nil). *)
Definition allocated (h : heap) (m : gomap) : Prop :=
  ∃ l, m = mapref l ∧ is_Some (maps h !! l).

(** The invariant of the data model: the three maps of [S] are never nil and
    are three different map objects. *)
Definition owns_maps (h : heap) (S : ServerMetrics) : Prop :=
  Forall (allocated h) (map_fields S) ∧ NoDup (map_fields S).

(** Every map of [O] is nil or a map object of the heap. *)
Definition maps_live (h : heap) (O : ServerMetrics) : Prop :=
  Forall (λ m, is_Some (contents h m)) (map_fields O).

(** No map object of [S] is a map of [O]. *)
Definition maps_apart (S O : ServerMetrics) : Prop :=
  ∀ m, m ∈ map_fields S → m ∈ map_fields O → m = nilmap.

(** [c'] is [c] with every entry of [b] inserted or overwritten. *)
Definition overwritten_by (c b c' : gmap string float64) : Prop :=
  ∀ k, c' !! k = match b !! k with Some v => Some v | None => c !! k end.

(** ** merge *)

(** One iteration of the loop of [mergeMap] and [copyMap] on the entries of
    the target map. *)
Definition assign_entry (c : gmap string float64) (kv : string * float64) :=
  <[kv.1 := kv.2]> c.

(** The struct [sm] points to after [sm.merge(o)]: the map fields keep
    pointing to the same map objects. *)
Definition merged_struct (S O : ServerMetrics) : ServerMetrics :=
  mkServerMetrics
    (if CPUUtilization O != -1 then CPUUtilization O else CPUUtilization S)
    (if MemUtilization O != -1 then MemUtilization O else MemUtilization S)
    (if QPS O != -1 then QPS O else QPS S)
    (if EPS O != -1 then EPS O else EPS S)
    (Utilization S) (RequestCost S) (NamedMetrics S).

(** [a], a map of the receiver, holds after the call what [overwritten_by]
    says of what [a] and [b] held before it. *)
Definition merged_map (h h' : heap) (a b : gomap) : Prop :=
  ∃ ca cb ca',
    contents h a = Some ca ∧ contents h b = Some cb ∧
    contents h' a = Some ca' ∧ overwritten_by ca cb ca'.

(** ** The recorder *)

(** The recorder [s] is idle and keeps its metrics in the struct [St] at
    [st]. *)
Definition recorder_state (h : heap) (s st : loc) (St : ServerMetrics) : Prop :=
  recorders h !! s = Some (mkRecorder false st) ∧ metrics h !! st = Some St.

(** ** The load report *)

(** The message [toLoadReportProto] builds from the struct [S]. *)
Definition report_of (S : ServerMetrics) : v3orcapb.OrcaLoadReport :=
  v3orcapb.mkOrcaLoadReport
    (if CPUUtilization S != -1 then Some (CPUUtilization S) else None)
    (if MemUtilization S != -1 then Some (MemUtilization S) else None)
    (if QPS S != -1 then Some (QPS S) else None)
    (if EPS S != -1 then Some (EPS S) else None)
    (Utilization S) (RequestCost S) (NamedMetrics S).

(** A scalar [x] of the struct shows in the report field [f] with value [v]
    exactly when [x] is [v] and [v] is not -1; the field is omitted when [x]
    compares equal to -1. *)
Definition scalar_reported (x : float64) (f : option float64) : Prop :=
  (∀ v, f = Some v ↔ x = v ∧ (v != -1) = true) ∧
  ((x != -1) = false → f = None).

(** C4, as the claim has it: the report of any [sm] carries no request_cost
    entry. *)
Definition request_cost_left_out : Prop :=
  ∀ h sm r h' R,
    toLoadReportProto sm h = Returns r h' → reports h' !! r = Some R →
    contents h' (v3orcapb.RequestCost R) = Some ∅.

(** After [del s], the snapshot of [s] has [scalar] at -1 and the load report
    of that snapshot omits [field]. *)
Definition unsets (h : heap) (s : loc) (del : loc → go unit)
    (scalar : ServerMetrics → float64)
    (field : v3orcapb.OrcaLoadReport → option float64) : Prop :=
  ∃ h1 p h2 P r h3 R,
    del s h = Returns () h1 ∧
    Recorder.ServerMetrics s h1 = Returns p h2 ∧
    metrics h2 !! p = Some P ∧ scalar P = (-1)%float ∧
    toLoadReportProto p h2 = Returns r h3 ∧
    reports h3 !! r = Some R ∧ field R = None.

(** ** Calls on a recorder *)

Module Call.

(** A call of one of the methods of the recorder. *)
Inductive t :=
  | SetCPUUtilization (val : float64)
  | DeleteCPUUtilization
  | SetMemoryUtilization (val : float64)
  | DeleteMemoryUtilization
  | SetQPS (val : float64)
  | DeleteQPS
  | SetEPS (val : float64)
  | DeleteEPS
  | SetNamedUtilization (name : string) (val : float64)
  | DeleteNamedUtilization (name : string)
  | SetRequestCost (name : string) (val : float64)
  | DeleteRequestCost (name : string)
  | SetNamedMetric (name : string) (val : float64)
  | DeleteNamedMetric (name : string)
  | TakeServerMetrics.

Definition run (s : loc) (c : t) : go unit :=
  match c with
  | SetCPUUtilization val => Recorder.SetCPUUtilization s val
  | DeleteCPUUtilization => Recorder.DeleteCPUUtilization s
  | SetMemoryUtilization val => Recorder.SetMemoryUtilization s val
  | DeleteMemoryUtilization => Recorder.DeleteMemoryUtilization s
  | SetQPS val => Recorder.SetQPS s val
  | DeleteQPS => Recorder.DeleteQPS s
  | SetEPS val => Recorder.SetEPS s val
  | DeleteEPS => Recorder.DeleteEPS s
  | SetNamedUtilization name val => Recorder.SetNamedUtilization s name val
  | DeleteNamedUtilization name => Recorder.DeleteNamedUtilization s name
  | SetRequestCost name val => Recorder.SetRequestCost s name val
  | DeleteRequestCost name => Recorder.DeleteRequestCost s name
  | SetNamedMetric name val => Recorder.SetNamedMetric s name val
  | DeleteNamedMetric name => Recorder.DeleteNamedMetric s name
  | TakeServerMetrics => Recorder.ServerMetrics s ;; mret ()
  end.

End Call.

(** The calls [cs] made on [s] one after the other. *)
Fixpoint run_calls (s : loc) (cs : list Call.t) : go unit :=
  match cs with
  | [] => mret ()
  | c :: cs' => Call.run s c ;; run_calls s cs'
  end.

(** [SetNamedMetric(k, v)] called for each entry of [kvs] in turn. *)
Definition named_metric_calls (kvs : list (string * float64)) : list Call.t :=
  map (λ kv, Call.SetNamedMetric kv.1 kv.2) kvs.

(** [h'] is [h] after any writes to the struct at [p] and to the map objects
    that struct holds in [h]: every other struct, every other map object and
    every recorder is as in [h]. *)
Definition mutated_at (p : loc) (h h' : heap) : Prop :=
  ∃ P, metrics h !! p = Some P ∧
    (∀ q, q ≠ p → metrics h' !! q = metrics h !! q) ∧
    (∀ l, mapref l ∉ map_fields P → maps h' !! l = maps h !! l) ∧
    recorders h' = recorders h.

(** [h'] keeps every struct of [h] other than the one at [st], and every map
    object of [h] that is no map of [St]. *)
Definition keeps_others (st : loc) (St : ServerMetrics) (h h' : heap) : Prop :=
  (∀ q X, q ≠ st → metrics h !! q = Some X → metrics h' !! q = Some X) ∧
  (∀ l c, mapref l ∉ map_fields St → maps h !! l = Some c → maps h' !! l = Some c).

(** What a call of a recorder method does to the heap. *)
Definition call_post (s st : loc) (St : ServerMetrics) (h h' : heap) : Prop :=
  ∃ St', recorder_state h' s st St' ∧ map_fields St' = map_fields St ∧
         Forall (allocated h') (map_fields St') ∧ keeps_others st St h h'.

(** ** Concrete heaps *)

(** The operands of the merge example of the spec: A = {cpu=0.3, qps=-1,
    utilization={a:1}} at address 1 and B = {cpu=-1, qps=10,
    utilization={a:2, b:3}} at address 2, here with request_cost={c:4} in B.
    [0x1.3333333333333p-2] is the binary64 value of the Go literal 0.3. *)
Definition example_A : ServerMetrics :=
  mkServerMetrics 0x1.3333333333333p-2 (-1) (-1) (-1) (mapref 1) (mapref 2) (mapref 3).

Definition example_B : ServerMetrics :=
  mkServerMetrics (-1) (-1) 10 (-1) (mapref 4) (mapref 5) (mapref 6).

Definition example_heap : heap :=
  mkHeap
    (list_to_map
       [(1%positive, {[ "a" := 1%float ]}); (2%positive, ∅); (3%positive, ∅);
        (4%positive, <["a" := 2%float]> {[ "b" := 3%float ]});
        (5%positive, {[ "c" := 4%float ]}); (6%positive, ∅)])
    (list_to_map [(1%positive, example_A); (2%positive, example_B)])
    ∅ ∅.

(** A recorder at address 1 on which [SetNamedUtilization("x", 0.5)] and
    [SetCPUUtilization(0.25)] have been called. *)
Definition recorder_struct : ServerMetrics :=
  mkServerMetrics 0.25 (-1) (-1) (-1) (mapref 1) (mapref 2) (mapref 3).

Definition recorder_heap : heap :=
  mkHeap
    (list_to_map
       [(1%positive, {[ "x" := 0.5%float ]}); (2%positive, ∅); (3%positive, ∅)])
    {[ 1%positive := recorder_struct ]}
    {[ 1%positive := mkRecorder false 1 ]}
    ∅.

(** The recorder's struct next to a struct at address 2 that holds the
    "unset" default: every scalar -1, a nil map and two empty ones. *)
Definition unset_struct : ServerMetrics :=
  mkServerMetrics (-1) (-1) (-1) (-1) nilmap (mapref 4) (mapref 5).

Definition recorder_merge_heap : heap :=
  mkHeap
    (list_to_map
       [(1%positive, {[ "x" := 0.5%float ]}); (2%positive, ∅); (3%positive, ∅);
        (4%positive, ∅); (5%positive, ∅)])
    (list_to_map [(1%positive, recorder_struct); (2%positive, unset_struct)])
    {[ 1%positive := mkRecorder false 1 ]}
    ∅.

(** ** Values and frames *)

(** A scalar of the receiver after [merge], from its value [x] before the
    call and the value [o] of the other operand. *)
Definition merge_scalar (x o : float64) : float64 :=
  if o != -1 then o else x.

(** What [sm] reads as after [sm.merge(o)], from what [sm] and [o] read as
    before the call. *)
Definition merge_values (V O : MetricsValue) : MetricsValue :=
  mkValue
    (merge_scalar (cpu_utilization V) (cpu_utilization O))
    (merge_scalar (mem_utilization V) (mem_utilization O))
    (merge_scalar (qps V) (qps O))
    (merge_scalar (eps V) (eps O))
    (utilization O ∪ utilization V)
    (request_cost O ∪ request_cost V)
    (named_metrics O ∪ named_metrics V).

(** [h'] has every struct of [h] but the one at [p], every map object of [h]
    but those of [S], and the recorders and load reports of [h]. *)
Definition only_changes (p : loc) (S : ServerMetrics) (h h' : heap) : Prop :=
  (∀ q, q ≠ p → metrics h' !! q = metrics h !! q) ∧
  (∀ m, m ∉ map_fields S → contents h' m = contents h m) ∧
  recorders h' = recorders h ∧ reports h' = reports h.

(** A setter [set] and a deleter [del] of named entries on the recorder [s]
    in [h]: the last call made for a name decides, whatever was called for
    that name before. *)
Definition last_call_decides (h : heap) (s : loc)
    (set : loc → string → float64 → go unit) (del : loc → string → go unit) : Prop :=
  ∀ k v1 v2,
    (∃ h', set s k v2 h = Returns () h' ∧
           (set s k v1 ;; set s k v2) h = Returns () h' ∧
           (del s k ;; set s k v2) h = Returns () h') ∧
    (∃ h', del s k h = Returns () h' ∧
           (set s k v1 ;; del s k) h = Returns () h' ∧
           (del s k ;; del s k) h = Returns () h').

(** A setter [set] of a scalar on the recorder [s] in [h]: the last value set
    decides. *)
Definition last_value_decides (h : heap) (s : loc)
    (set : loc → float64 → go unit) : Prop :=
  ∀ v1 v2,
    ∃ h', set s v2 h = Returns () h' ∧
          (set s v1 ;; set s v2) h = Returns () h'.

(** ** Calls followed by a snapshot *)

(** The four scalars of a struct. *)
Definition value_of_scalars (S : ServerMetrics) : float64 * float64 * float64 * float64 :=
  (CPUUtilization S, MemUtilization S, QPS S, EPS S).


(** After [call] on the recorder [s], the snapshot of [s] reads as [V']. *)
Definition call_then_snapshot (h : heap) (s : loc) (call : go unit)
    (V' : MetricsValue) : Prop :=
  ∃ h1 p h2,
    call h = Returns () h1 ∧
    Recorder.ServerMetrics s h1 = Returns p h2 ∧
    value_at h2 p = Some V'.

(** After [call] on the recorder [s], the snapshot of [s] reads as [V'], and
    the load report of that snapshot has [field] set to [v] when [v] is not -1
    and omits it otherwise. *)
Definition set_then_report (h : heap) (s : loc) (call : go unit)
    (V' : MetricsValue) (field : v3orcapb.OrcaLoadReport → option float64)
    (v : float64) : Prop :=
  ∃ h1 p h2 r h3 R,
    call h = Returns () h1 ∧
    Recorder.ServerMetrics s h1 = Returns p h2 ∧
    value_at h2 p = Some V' ∧
    toLoadReportProto p h2 = Returns r h3 ∧
    reports h3 !! r = Some R ∧
    field R = (if v != -1 then Some v else None).

(** The load report at [r] has the scalars that [report_of] gives for a
    struct reading as [Vs], and its three maps read as those of [Vm]. *)
Definition report_reads (h : heap) (r : loc) (Vs Vm : MetricsValue) : Prop :=
  ∃ R, reports h !! r = Some R ∧
    v3orcapb.CpuUtilization R
      = (if cpu_utilization Vs != -1 then Some (cpu_utilization Vs) else None) ∧
    v3orcapb.MemUtilization R
      = (if mem_utilization Vs != -1 then Some (mem_utilization Vs) else None) ∧
    v3orcapb.RpsFractional R = (if qps Vs != -1 then Some (qps Vs) else None) ∧
    v3orcapb.Eps R = (if eps Vs != -1 then Some (eps Vs) else None) ∧
    contents h (v3orcapb.Utilization R) = Some (utilization Vm) ∧
    contents h (v3orcapb.RequestCost R) = Some (request_cost Vm) ∧
    contents h (v3orcapb.NamedMetrics R) = Some (named_metrics Vm).

(** ** More concrete heaps *)

(** What A, B and the recorder's struct read as in [example_heap] and
    [recorder_heap]. *)
Definition example_A_value : MetricsValue :=
  mkValue 0x1.3333333333333p-2 (-1) (-1) (-1) {[ "a" := 1%float ]} ∅ ∅.

Definition example_B_value : MetricsValue :=
  mkValue (-1) (-1) 10 (-1)
    (<["a" := 2%float]> {[ "b" := 3%float ]}) {[ "c" := 4%float ]} ∅.

Definition recorder_value : MetricsValue :=
  mkValue 0.25 (-1) (-1) (-1) {[ "x" := 0.5%float ]} ∅ ∅.

(** [example_heap] with a third struct C = {mem=0.5, qps=20,
    utilization={a:5}} at address 3, whose request_cost map is nil. *)
Definition example_C : ServerMetrics :=
  mkServerMetrics (-1) 0.5 20 (-1) (mapref 7) nilmap (mapref 8).

Definition example_C_value : MetricsValue :=
  mkValue (-1) 0.5 20 (-1) {[ "a" := 5%float ]} ∅ ∅.

Definition example_heap3 : heap :=
  mkHeap
    (<[7%positive := {[ "a" := 5%float ]}]> (<[8%positive := ∅]> (maps example_heap)))
    (<[3%positive := example_C]> (metrics example_heap))
    ∅ ∅.

(** A recorder at address 1 whose state has three nil maps. *)
Definition nil_maps_struct : ServerMetrics :=
  mkServerMetrics (-1) (-1) (-1) (-1) nilmap nilmap nilmap.

Definition nil_maps_heap : heap :=
  mkHeap ∅ {[ 1%positive := nil_maps_struct ]}
    {[ 1%positive := mkRecorder false 1 ]} ∅.


(** * Proofs *)

(** ** The monad *)

Lemma bind_Returns {A B} (m : go A) (f : A → go B) h a h' :
  m h = Returns a h' → (m ≫= f) h = f a h'.
Proof. unfold mbind, go_mbind, go_bind. intros H. by rewrite H. Qed.

Lemma bind_Panics {A B} (m : go A) (f : A → go B) h :
  m h = Panics → (m ≫= f) h = Panics.
Proof. unfold mbind, go_mbind, go_bind. intros H. by rewrite H. Qed.

Lemma heap_eta h : mkHeap (maps h) (metrics h) (recorders h) (reports h) = h.
Proof. by destruct h. Qed.

Lemma with_maps_id h l c : maps h !! l = Some c → with_maps <[l := c]> h = h.
Proof. intros Hl. unfold with_maps. rewrite insert_id; [|done]. apply heap_eta. Qed.

Lemma with_metrics_id h p S : metrics h !! p = Some S → with_metrics <[p := S]> h = h.
Proof. intros Hp. unfold with_metrics. rewrite insert_id; [|done]. apply heap_eta. Qed.

Lemma load_metrics_Returns h p S :
  metrics h !! p = Some S → load_metrics p h = Returns S h.
Proof. unfold load_metrics. intros H. by rewrite H. Qed.

Lemma update_metrics_Returns h p S f :
  metrics h !! p = Some S →
  update_metrics p f h = Returns () (with_metrics <[p := f S]> h).
Proof. unfold update_metrics. intros H. by rewrite H. Qed.

(** An [if c { p.F = v }] statement as one update of the struct. *)
Lemma when_update_metrics h p S f c :
  metrics h !! p = Some S →
  when c (update_metrics p f) h
  = Returns () (with_metrics <[p := if c then f S else S]> h).
Proof.
  intros Hp. destruct c; simpl.
  - by apply update_metrics_Returns.
  - by rewrite with_metrics_id.
Qed.

(** ** Loops over a map *)

Lemma for_range_assign l es h c :
  maps h !! l = Some c →
  for_range es (λ k v, map_assign (mapref l) k v) h
  = Returns () (with_maps <[l := foldl assign_entry c es]> h).
Proof.
  revert h c. induction es as [|[k v] es IH]; intros h c Hl; simpl.
  - by rewrite with_maps_id.
  - erewrite bind_Returns; last by (unfold map_assign; rewrite Hl).
    erewrite IH; last by (simpl; apply lookup_insert_eq).
    unfold with_maps; simpl. by rewrite insert_insert_eq.
Qed.

Lemma foldl_assign_union (es : list (string * float64)) (c : gmap string float64) :
  NoDup es.*1 → foldl assign_entry c es = list_to_map es ∪ c.
Proof.
  revert c. induction es as [|[k v] es IH]; intros c Hnd.
  - simpl. by rewrite (left_id_L ∅ (∪)).
  - rewrite fmap_cons in Hnd. apply NoDup_cons in Hnd as [Hk Hnd].
    simpl. rewrite IH; [|done]. unfold assign_entry; simpl.
    rewrite <- insert_union_l. symmetry. apply insert_union_r.
    by apply not_elem_of_list_to_map_1.
Qed.

(** The loop [for k, v := range b { a[k] = v }] gives the same map whatever
    the order in which the entries of [b] are visited. *)
Lemma for_range_assign_perm l es h c (b : gmap string float64) :
  maps h !! l = Some c → es ≡ₚ map_to_list b →
  for_range es (λ k v, map_assign (mapref l) k v) h
  = Returns () (with_maps <[l := b ∪ c]> h).
Proof.
  intros Hl Hp. rewrite (for_range_assign _ _ _ _ Hl).
  assert (Hnd : NoDup es.*1).
  { rewrite Hp. apply NoDup_fst_map_to_list. }
  rewrite foldl_assign_union; [|done].
  rewrite (list_to_map_proper es (map_to_list b)); [|done..].
  by rewrite list_to_map_to_list.
Qed.

Lemma for_range_nil_target es h :
  for_range es (λ k v, map_assign nilmap k v) h
  = match es with [] => Returns () h | _ => Panics end.
Proof. by destruct es as [|[k v] es]. Qed.

(** ** Frame lemmas for [contents] *)

Lemma contents_with_metrics h f m :
  contents (with_metrics f h) m = contents h m.
Proof. by destruct m. Qed.

Lemma contents_with_recorders h f m :
  contents (with_recorders f h) m = contents h m.
Proof. by destruct m. Qed.

Lemma contents_with_reports h f m :
  contents (with_reports f h) m = contents h m.
Proof. by destruct m. Qed.

Lemma contents_insert_ne h l c m :
  m ≠ mapref l → contents (with_maps <[l := c]> h) m = contents h m.
Proof.
  destruct m as [|l']; [done|]. intros Hne. simpl.
  rewrite lookup_insert_ne; [done|congruence].
Qed.

Lemma contents_insert_eq h l c :
  contents (with_maps <[l := c]> h) (mapref l) = Some c.
Proof. simpl. apply lookup_insert_eq. Qed.

Lemma contents_insert_fresh h l c m cm :
  contents h m = Some cm → maps h !! l = None →
  contents (with_maps <[l := c]> h) m = Some cm.
Proof.
  intros Hm Hl. rewrite contents_insert_ne; [done|].
  intros ->. simpl in Hm. congruence.
Qed.

Ltac contents_lookup :=
  repeat first
    [ rewrite contents_with_metrics
    | rewrite contents_with_recorders
    | rewrite contents_with_reports
    | rewrite contents_insert_eq
    | rewrite contents_insert_ne by congruence ];
  first [ done | eassumption | reflexivity ].

(** ** mergeMap *)

Lemma range_entries_Returns h b cb :
  contents h b = Some cb →
  ∃ es, range_entries b h = Returns es h ∧ es ≡ₚ map_to_list cb.
Proof.
  destruct b as [|lb]; simpl; intros Hb.
  - injection Hb as <-. exists []. by rewrite map_to_list_empty.
  - exists (map_to_list cb). by rewrite Hb.
Qed.

(** [mergeMap(a, b)] on a map object [a]: also when [b] is [a] itself. *)
Lemma mergeMap_Returns h l b ca cb :
  maps h !! l = Some ca → contents h b = Some cb →
  mergeMap (mapref l) b h = Returns () (with_maps <[l := cb ∪ ca]> h).
Proof.
  intros Hl Hb. unfold mergeMap.
  destruct (range_entries_Returns h b cb Hb) as (es & Hes & Hp).
  rewrite (bind_Returns _ _ _ _ _ Hes).
  by apply for_range_assign_perm.
Qed.

(** Nothing is written when [b] has no entry, so [a] may even be nil. *)
Lemma mergeMap_empty h a b :
  contents h b = Some ∅ → mergeMap a b h = Returns () h.
Proof.
  intros Hb. unfold mergeMap.
  destruct (range_entries_Returns h b ∅ Hb) as (es & Hes & Hp).
  rewrite (bind_Returns _ _ _ _ _ Hes).
  rewrite map_to_list_empty in Hp. apply Permutation_nil_r in Hp as ->. done.
Qed.

(** Writing an entry into a nil map panics. *)
Lemma mergeMap_nil_target h b cb :
  contents h b = Some cb → cb ≠ ∅ → mergeMap nilmap b h = Panics.
Proof.
  intros Hb Hne. unfold mergeMap.
  destruct (range_entries_Returns h b cb Hb) as (es & Hes & Hp).
  rewrite (bind_Returns _ _ _ _ _ Hes), for_range_nil_target.
  destruct es; [|done].
  apply Permutation_nil_l in Hp. symmetry in Hp. by apply map_to_list_empty_iff in Hp.
Qed.

(** ** merge *)

Ltac heap_lookup :=
  simpl;
  repeat first
    [ rewrite lookup_insert_eq
    | rewrite lookup_insert_ne by congruence ];
  first [ done | eassumption | reflexivity ].

Ltac go_step tac := erewrite bind_Returns; [| tac ].

(** The four [if] statements of [merge], run from [h] where [sm] points to
    [S] and [o], another struct, to [O]: what is left to run starts from [h]
    with [merged_struct S O] at [sm]. *)
Ltac merge_scalars_steps sm S O h :=
  go_step ltac:(by apply load_metrics_Returns);
  go_step ltac:(by apply when_update_metrics);
  do 3 (go_step ltac:(apply load_metrics_Returns; heap_lookup);
        go_step ltac:(apply when_update_metrics; heap_lookup));
  match goal with |- _ ?h4 = _ =>
    replace h4 with (with_metrics <[sm := merged_struct S O]> h);
    [| unfold with_metrics; simpl; rewrite !insert_insert_eq;
       do 2 f_equal; unfold merged_struct; destruct S; simpl;
       by destruct (_ != _), (_ != _), (_ != _), (_ != _) ]
  end.

Lemma merge_Returns h sm o S O lU lR lN cU cR cN oU oR oN :
  metrics h !! sm = Some S → metrics h !! o = Some O → sm ≠ o →
  Utilization S = mapref lU → RequestCost S = mapref lR →
  NamedMetrics S = mapref lN →
  maps h !! lU = Some cU → maps h !! lR = Some cR → maps h !! lN = Some cN →
  contents h (Utilization O) = Some oU → contents h (RequestCost O) = Some oR →
  contents h (NamedMetrics O) = Some oN →
  lU ≠ lR → lU ≠ lN → lR ≠ lN →
  RequestCost O ≠ mapref lU → NamedMetrics O ≠ mapref lU →
  NamedMetrics O ≠ mapref lR →
  merge sm o h
  = Returns ()
      (mkHeap (<[lN := oN ∪ cN]> (<[lR := oR ∪ cR]> (<[lU := oU ∪ cU]> (maps h))))
              (<[sm := merged_struct S O]> (metrics h))
              (recorders h) (reports h)).
Proof.
  intros Hsm Ho Hne HU HR HN HcU HcR HcN HoU HoR HoN n1 n2 n3 x1 x2 x3.
  unfold merge.
  merge_scalars_steps sm S O h.
  go_step ltac:(apply load_metrics_Returns; heap_lookup).
  go_step ltac:(apply load_metrics_Returns; heap_lookup).
  simpl. rewrite HU.
  go_step ltac:(by apply mergeMap_Returns).
  go_step ltac:(apply load_metrics_Returns; heap_lookup).
  go_step ltac:(apply load_metrics_Returns; heap_lookup).
  simpl. rewrite HR.
  go_step ltac:(apply mergeMap_Returns; [heap_lookup | contents_lookup]).
  go_step ltac:(apply load_metrics_Returns; heap_lookup).
  go_step ltac:(apply load_metrics_Returns; heap_lookup).
  simpl. rewrite HN.
  erewrite mergeMap_Returns; [done | heap_lookup | contents_lookup].
Qed.

(** X2: why the maps must never be nil: [sm.merge(o)] panics when the
    Utilization map of [sm] is nil and that of [o] has an entry. *)
Lemma merge_nil_receiver_Panics h sm o S O oU :
  metrics h !! sm = Some S → metrics h !! o = Some O → sm ≠ o →
  Utilization S = nilmap →
  contents h (Utilization O) = Some oU → oU ≠ ∅ →
  merge sm o h = Panics.
Proof.
  intros Hsm Ho Hne HU HoU Hentries. unfold merge.
  merge_scalars_steps sm S O h.
  go_step ltac:(apply load_metrics_Returns; heap_lookup).
  go_step ltac:(apply load_metrics_Returns; heap_lookup).
  apply bind_Panics. simpl. rewrite HU.
  eapply mergeMap_nil_target; [|exact Hentries]. contents_lookup.
Qed.

Lemma Utilization_field S : Utilization S ∈ map_fields S.
Proof. apply elem_of_cons. by left. Qed.

Lemma RequestCost_field S : RequestCost S ∈ map_fields S.
Proof. apply elem_of_cons. right. apply elem_of_cons. by left. Qed.

Lemma NamedMetrics_field S : NamedMetrics S ∈ map_fields S.
Proof. do 2 (apply elem_of_cons; right). apply elem_of_cons. by left. Qed.

Create HintDb fields.
#[global] Hint Resolve Utilization_field RequestCost_field NamedMetrics_field : fields.

(** Unpacking the invariant of the data model. *)
Lemma owns_maps_inv h S :
  owns_maps h S →
  ∃ lU lR lN cU cR cN,
    Utilization S = mapref lU ∧ RequestCost S = mapref lR ∧
    NamedMetrics S = mapref lN ∧
    maps h !! lU = Some cU ∧ maps h !! lR = Some cR ∧ maps h !! lN = Some cN ∧
    lU ≠ lR ∧ lU ≠ lN ∧ lR ≠ lN.
Proof.
  intros [Hal Hnd]. unfold map_fields in *.
  apply Forall_cons in Hal as [(lU & HU & [cU HcU]) Hal].
  apply Forall_cons in Hal as [(lR & HR & [cR HcR]) Hal].
  apply Forall_cons in Hal as [(lN & HN & [cN HcN]) _].
  rewrite HU, HR, HN in Hnd.
  apply NoDup_cons in Hnd as [H1 Hnd]. apply NoDup_cons in Hnd as [H2 _].
  exists lU, lR, lN, cU, cR, cN. repeat split; try done.
  - intros ->. apply H1, elem_of_cons. by left.
  - intros ->. apply H1, elem_of_cons. right. apply elem_of_cons. by left.
  - intros ->. apply H2, elem_of_cons. by left.
Qed.

Lemma maps_live_inv h O :
  maps_live h O →
  ∃ oU oR oN,
    contents h (Utilization O) = Some oU ∧ contents h (RequestCost O) = Some oR ∧
    contents h (NamedMetrics O) = Some oN.
Proof.
  unfold maps_live, map_fields. intros Hl.
  apply Forall_cons in Hl as [[oU HU] Hl].
  apply Forall_cons in Hl as [[oR HR] Hl].
  apply Forall_cons in Hl as [[oN HN] _].
  by exists oU, oR, oN.
Qed.

Lemma maps_apart_ne S O l m :
  maps_apart S O → mapref l ∈ map_fields S → m ∈ map_fields O → m ≠ mapref l.
Proof. intros Hap HS HO ->. by specialize (Hap _ HS HO). Qed.

Lemma overwritten_by_union (c b : gmap string float64) :
  overwritten_by c b (b ∪ c).
Proof.
  intros k. rewrite lookup_union. by destruct (b !! k), (c !! k).
Qed.

(** C1: [sm.merge(o)] returns; afterwards each scalar of [sm] is [o]'s when
    [o]'s is not -1 and is unchanged otherwise, and each of the three maps of
    [sm] has every key of [o]'s map with [o]'s value and every other key as
    before.  The operands satisfy the data model's invariant (maps never nil,
    no map object shared). *)
Theorem merge_overwrites h sm o S O :
  metrics h !! sm = Some S → metrics h !! o = Some O →
  owns_maps h S → maps_live h O → maps_apart S O →
  ∃ h' S',
    merge sm o h = Returns () h' ∧
    metrics h' !! sm = Some S' ∧
    CPUUtilization S'
      = (if CPUUtilization O != -1 then CPUUtilization O else CPUUtilization S) ∧
    MemUtilization S'
      = (if MemUtilization O != -1 then MemUtilization O else MemUtilization S) ∧
    QPS S' = (if QPS O != -1 then QPS O else QPS S) ∧
    EPS S' = (if EPS O != -1 then EPS O else EPS S) ∧
    map_fields S' = map_fields S ∧
    merged_map h h' (Utilization S) (Utilization O) ∧
    merged_map h h' (RequestCost S) (RequestCost O) ∧
    merged_map h h' (NamedMetrics S) (NamedMetrics O).
Proof.
  intros Hsm Ho Hown Hlive Hap.
  destruct (owns_maps_inv _ _ Hown)
    as (lU & lR & lN & cU & cR & cN & HU & HR & HN & HcU & HcR & HcN & n1 & n2 & n3).
  destruct (maps_live_inv _ _ Hlive) as (oU & oR & oN & HoU & HoR & HoN).
  assert (InU := Utilization_field S). rewrite HU in InU.
  assert (InR := RequestCost_field S). rewrite HR in InR.
  assert (InN := NamedMetrics_field S). rewrite HN in InN.
  assert (OU := Utilization_field O).
  assert (OR := RequestCost_field O).
  assert (ON := NamedMetrics_field O).
  assert (Hne : sm ≠ o).
  { intros ->. rewrite Hsm in Ho. injection Ho as <-.
    by specialize (Hap _ InU InU). }
  eexists _, (merged_struct S O). split.
  { eapply merge_Returns; eauto using maps_apart_ne. }
  split; [simpl; apply lookup_insert_eq|].
  do 5 (split; [done|]).
  split; [|split].
  - exists cU, oU, (oU ∪ cU). rewrite HU.
    do 2 (split; [done|]). split; [heap_lookup|apply overwritten_by_union].
  - exists cR, oR, (oR ∪ cR). rewrite HR.
    do 2 (split; [done|]). split; [heap_lookup|apply overwritten_by_union].
  - exists cN, oN, (oN ∪ cN). rewrite HN.
    do 2 (split; [done|]). split; [heap_lookup|apply overwritten_by_union].
Qed.

Lemma unset_not_set : ((-1)%float != -1) = false.
Proof. reflexivity. Qed.

Lemma value_of_inv h S v :
  value_of h S = Some v →
  contents h (Utilization S) = Some (utilization v) ∧
  contents h (RequestCost S) = Some (request_cost v) ∧
  contents h (NamedMetrics S) = Some (named_metrics v) ∧
  CPUUtilization S = cpu_utilization v ∧ MemUtilization S = mem_utilization v ∧
  QPS S = qps v ∧ EPS S = eps v.
Proof.
  unfold value_of. intros Hv.
  destruct (contents h (Utilization S)) as [u|]; [|done].
  destruct (contents h (RequestCost S)) as [c|]; [|done].
  destruct (contents h (NamedMetrics S)) as [n|]; [|done].
  simpl in Hv. injection Hv as <-. done.
Qed.

Lemma merged_struct_idemp S O :
  merged_struct (merged_struct S O) O = merged_struct S O.
Proof.
  unfold merged_struct; simpl.
  by destruct (CPUUtilization O != -1), (MemUtilization O != -1),
    (QPS O != -1), (EPS O != -1).
Qed.

Lemma union_absorb (b c : gmap string float64) : b ∪ (b ∪ c) = b ∪ c.
Proof. by rewrite (assoc_L (∪)), (idemp_L (∪)). Qed.

(** C9: merging a value whose scalars are all -1 and whose maps are all empty
    leaves the heap, and so the receiver, as it was; and merging the same
    [o] a second time changes nothing any more. *)
Theorem merge_unset_identity_and_idempotent :
  (∀ h sm o S O,
     metrics h !! sm = Some S → metrics h !! o = Some O →
     value_of h O = Some unset_value →
     merge sm o h = Returns () h) ∧
  (∀ h sm o S O,
     metrics h !! sm = Some S → metrics h !! o = Some O →
     owns_maps h S → maps_live h O → maps_apart S O →
     ∃ h1, merge sm o h = Returns () h1 ∧ merge sm o h1 = Returns () h1).
Proof.
  split.
  - intros h sm o S O Hsm Ho Hv.
    apply value_of_inv in Hv as (HU & HR & HN & Hc & Hm & Hq & He).
    simpl in *. unfold merge.
    go_step ltac:(by apply load_metrics_Returns).
    rewrite Hc, unset_not_set. go_step ltac:(reflexivity).
    go_step ltac:(by apply load_metrics_Returns).
    rewrite Hm, unset_not_set. go_step ltac:(reflexivity).
    go_step ltac:(by apply load_metrics_Returns).
    rewrite Hq, unset_not_set. go_step ltac:(reflexivity).
    go_step ltac:(by apply load_metrics_Returns).
    rewrite He, unset_not_set. go_step ltac:(reflexivity).
    go_step ltac:(by apply load_metrics_Returns).
    go_step ltac:(by apply load_metrics_Returns).
    go_step ltac:(by apply mergeMap_empty).
    go_step ltac:(by apply load_metrics_Returns).
    go_step ltac:(by apply load_metrics_Returns).
    go_step ltac:(by apply mergeMap_empty).
    go_step ltac:(by apply load_metrics_Returns).
    go_step ltac:(by apply load_metrics_Returns).
    by apply mergeMap_empty.
  - intros h sm o S O Hsm Ho Hown Hlive Hap.
    destruct (owns_maps_inv _ _ Hown)
      as (lU & lR & lN & cU & cR & cN & HU & HR & HN & HcU & HcR & HcN & n1 & n2 & n3).
    destruct (maps_live_inv _ _ Hlive) as (oU & oR & oN & HoU & HoR & HoN).
    assert (InU := Utilization_field S). rewrite HU in InU.
    assert (InR := RequestCost_field S). rewrite HR in InR.
    assert (InN := NamedMetrics_field S). rewrite HN in InN.
    assert (OU := Utilization_field O).
    assert (OR := RequestCost_field O).
    assert (ON := NamedMetrics_field O).
    assert (Hne : sm ≠ o).
    { intros ->. rewrite Hsm in Ho. injection Ho as <-.
      by specialize (Hap _ InU InU). }
    assert (xU := λ l H, maps_apart_ne S O l _ Hap H OU).
    assert (xR := λ l H, maps_apart_ne S O l _ Hap H OR).
    assert (xN := λ l H, maps_apart_ne S O l _ Hap H ON).
    eexists. split.
    { eapply merge_Returns; eauto. }
    erewrite (merge_Returns _ sm o (merged_struct S O) O lU lR lN
                (oU ∪ cU) (oR ∪ cR) (oN ∪ cN) oU oR oN);
      try done; try heap_lookup.
    + f_equal. simpl. rewrite merged_struct_idemp, !union_absorb.
      rewrite insert_insert_eq.
      rewrite (insert_id _ lU); [|heap_lookup].
      rewrite (insert_id _ lR); [|heap_lookup].
      rewrite (insert_id _ lN); [|heap_lookup].
      done.
    + rewrite <- HoU. destruct (Utilization O) as [|l]; [done|]. simpl.
      rewrite lookup_insert_ne; [|intros ->; exact (xU _ InN eq_refl)].
      rewrite lookup_insert_ne; [|intros ->; exact (xU _ InR eq_refl)].
      rewrite lookup_insert_ne; [|intros ->; exact (xU _ InU eq_refl)].
      done.
    + rewrite <- HoR. destruct (RequestCost O) as [|l]; [done|]. simpl.
      rewrite lookup_insert_ne; [|intros ->; exact (xR _ InN eq_refl)].
      rewrite lookup_insert_ne; [|intros ->; exact (xR _ InR eq_refl)].
      rewrite lookup_insert_ne; [|intros ->; exact (xR _ InU eq_refl)].
      done.
    + rewrite <- HoN. destruct (NamedMetrics O) as [|l]; [done|]. simpl.
      rewrite lookup_insert_ne; [|intros ->; exact (xN _ InN eq_refl)].
      rewrite lookup_insert_ne; [|intros ->; exact (xN _ InR eq_refl)].
      rewrite lookup_insert_ne; [|intros ->; exact (xN _ InU eq_refl)].
      done.
    + by apply xR.
    + by apply xN.
    + by apply xN.
Qed.

(** ** The recorder's lock *)

Lemma load_state_Returns h s r :
  recorders h !! s = Some r → load_state s h = Returns (state r) h.
Proof.
  intros Hs. unfold load_state, load_recorder.
  erewrite bind_Returns; [done|]. by rewrite Hs.
Qed.

(** A method that takes the lock of an idle recorder runs its body with the
    mutex held and gives the mutex back: no method of this file locks
    twice. *)
Lemma locked_Returns {A} s st (body : go A) h a h1 :
  recorders h !! s = Some (mkRecorder false st) →
  body (with_recorders <[s := mkRecorder true st]> h) = Returns a h1 →
  recorders h1 = <[s := mkRecorder true st]> (recorders h) →
  locked s body h
  = Returns a (mkHeap (maps h1) (metrics h1) (recorders h) (reports h1)).
Proof.
  intros Hs Hbody Hrec. unfold locked.
  go_step ltac:(unfold Lock; rewrite Hs; reflexivity). simpl.
  go_step ltac:(exact Hbody).
  go_step ltac:(unfold Unlock; rewrite Hrec, lookup_insert_eq; reflexivity).
  simpl. unfold mret, go_mret, go_ret, with_recorders. simpl.
  rewrite Hrec, insert_insert_eq, insert_id; done.
Qed.


Lemma set_scalar_Returns h s st St f :
  recorder_state h s st St →
  locked s (st ← load_state s; update_metrics st f) h
  = Returns () (with_metrics <[st := f St]> h).
Proof.
  intros [Hs Hst].
  erewrite locked_Returns; cycle 1.
  - exact Hs.
  - go_step ltac:(apply load_state_Returns; heap_lookup).
    by apply update_metrics_Returns.
  - done.
  - done.
Qed.

Lemma set_entry_Returns h s st St (field : ServerMetrics → gomap) l c k v :
  recorder_state h s st St → field St = mapref l → maps h !! l = Some c →
  locked s (st ← load_state s; st_ ← load_metrics st;
            map_assign (field st_) k v) h
  = Returns () (with_maps <[l := <[k := v]> c]> h).
Proof.
  intros [Hs Hst] Hf Hl.
  erewrite locked_Returns; cycle 1.
  - exact Hs.
  - go_step ltac:(apply load_state_Returns; heap_lookup).
    go_step ltac:(by apply load_metrics_Returns).
    simpl. rewrite Hf. unfold map_assign. simpl. by rewrite Hl.
  - done.
  - done.
Qed.

Lemma delete_entry_Returns h s st St (field : ServerMetrics → gomap) l c k :
  recorder_state h s st St → field St = mapref l → maps h !! l = Some c →
  locked s (st ← load_state s; st_ ← load_metrics st;
            map_delete (field st_) k) h
  = Returns () (with_maps <[l := delete k c]> h).
Proof.
  intros [Hs Hst] Hf Hl.
  erewrite locked_Returns; cycle 1.
  - exact Hs.
  - go_step ltac:(apply load_state_Returns; heap_lookup).
    go_step ltac:(by apply load_metrics_Returns).
    simpl. rewrite Hf. unfold map_delete. simpl. by rewrite Hl.
  - done.
  - done.
Qed.

Lemma delete_entry_nil h s st St (field : ServerMetrics → gomap) k :
  recorder_state h s st St → field St = nilmap →
  locked s (st ← load_state s; st_ ← load_metrics st;
            map_delete (field st_) k) h
  = Returns () h.
Proof.
  intros [Hs Hst] Hf.
  erewrite locked_Returns; cycle 1.
  - exact Hs.
  - go_step ltac:(apply load_state_Returns; heap_lookup).
    go_step ltac:(by apply load_metrics_Returns).
    simpl. rewrite Hf. done.
  - done.
  - simpl. by rewrite heap_eta.
Qed.

(** ** Allocation *)

Lemma fresh_lookup {V} (M : gmap positive V) : M !! fresh (dom M) = None.
Proof. apply not_elem_of_dom, is_fresh. Qed.

(** [copyMap] returns a new map object that holds the entries of [m]. *)
Lemma copyMap_Returns h m c :
  contents h m = Some c →
  copyMap m h
  = Returns (mapref (fresh (dom (maps h))))
      (with_maps <[fresh (dom (maps h)) := c]> h).
Proof.
  intros Hm. unfold copyMap.
  go_step ltac:(reflexivity).
  destruct (range_entries_Returns
              (with_maps <[fresh (dom (maps h)) := ∅]> h) m c) as (es & Hes & Hp).
  { rewrite contents_insert_ne; [done|]. intros ->. simpl in Hm.
    by rewrite fresh_lookup in Hm. }
  go_step ltac:(exact Hes).
  go_step ltac:(apply (for_range_assign_perm _ _ _ ∅ c); [heap_lookup|done]).
  unfold mret, go_mret, go_ret, with_maps. simpl.
  by rewrite insert_insert_eq, (right_id_L ∅ (∪)).
Qed.

(** ** The snapshot *)

Lemma ServerMetrics_Returns h s st St cU cR cN :
  recorder_state h s st St →
  contents h (Utilization St) = Some cU →
  contents h (RequestCost St) = Some cR →
  contents h (NamedMetrics St) = Some cN →
  ∃ p l1 l2 l3,
    Recorder.ServerMetrics s h
    = Returns p
        (mkHeap (<[l3 := cN]> (<[l2 := cR]> (<[l1 := cU]> (maps h))))
                (<[p := mkServerMetrics (CPUUtilization St) (MemUtilization St)
                          (QPS St) (EPS St) (mapref l1) (mapref l2) (mapref l3)]>
                   (metrics h))
                (recorders h) (reports h)) ∧
    metrics h !! p = None ∧
    maps h !! l1 = None ∧ maps h !! l2 = None ∧ maps h !! l3 = None ∧
    l1 ≠ l2 ∧ l1 ≠ l3 ∧ l2 ≠ l3.
Proof.
  intros [Hs Hst] HU HR HN.
  pose (l1 := fresh (dom (maps h))).
  pose (l2 := fresh (dom (<[l1 := cU]> (maps h)))).
  pose (l3 := fresh (dom (<[l2 := cR]> (<[l1 := cU]> (maps h))))).
  assert (F1 := fresh_lookup (maps h)).
  assert (F2 := fresh_lookup (<[l1 := cU]> (maps h))).
  assert (F3 := fresh_lookup (<[l2 := cR]> (<[l1 := cU]> (maps h)))).
  fold l1 in F1. fold l2 in F2. fold l3 in F3.
  assert (F2' := F2). assert (F3' := F3).
  apply lookup_insert_None in F2 as [F2 n12].
  apply lookup_insert_None in F3 as [F3 n23].
  apply lookup_insert_None in F3 as [F3 n13].
  exists (fresh (dom (metrics h))), l1, l2, l3.
  split; [|by rewrite fresh_lookup].
  unfold Recorder.ServerMetrics.
  erewrite locked_Returns; cycle 1.
  - exact Hs.
  - do 5 (go_step ltac:(apply load_state_Returns; heap_lookup);
          go_step ltac:(apply load_metrics_Returns; heap_lookup)).
    go_step ltac:(apply copyMap_Returns; contents_lookup).
    go_step ltac:(apply load_state_Returns; heap_lookup).
    go_step ltac:(apply load_metrics_Returns; heap_lookup).
    go_step ltac:(apply copyMap_Returns;
                  apply contents_insert_fresh; [contents_lookup|exact F1]).
    go_step ltac:(apply load_state_Returns; heap_lookup).
    go_step ltac:(apply load_metrics_Returns; heap_lookup).
    go_step ltac:(apply copyMap_Returns;
                  apply contents_insert_fresh;
                  [apply contents_insert_fresh; [contents_lookup|exact F1]
                  |exact F2']).
    reflexivity.
  - done.
  - done.
Qed.

(** ** toLoadReportProto *)

Lemma with_reports_id h p R : reports h !! p = Some R → with_reports <[p := R]> h = h.
Proof. intros Hp. unfold with_reports. rewrite insert_id; [|done]. apply heap_eta. Qed.

Lemma when_update_report h p R f c :
  reports h !! p = Some R →
  when c (update_report p f) h
  = Returns () (with_reports <[p := if c then f R else R]> h).
Proof.
  intros Hp. destruct c; simpl.
  - unfold update_report. by rewrite Hp.
  - by rewrite with_reports_id.
Qed.

Lemma toLoadReportProto_Returns h sm S :
  metrics h !! sm = Some S →
  toLoadReportProto sm h
  = Returns (fresh (dom (reports h)))
      (with_reports <[fresh (dom (reports h)) := report_of S]> h).
Proof.
  intros Hsm. unfold toLoadReportProto.
  go_step ltac:(by apply load_metrics_Returns).
  go_step ltac:(reflexivity).
  go_step ltac:(apply load_metrics_Returns; heap_lookup).
  go_step ltac:(apply when_update_report; heap_lookup).
  go_step ltac:(apply load_metrics_Returns; heap_lookup).
  go_step ltac:(apply when_update_report; heap_lookup).
  go_step ltac:(apply load_metrics_Returns; heap_lookup).
  go_step ltac:(apply when_update_report; heap_lookup).
  go_step ltac:(apply load_metrics_Returns; heap_lookup).
  go_step ltac:(apply when_update_report; heap_lookup).
  unfold mret, go_mret, go_ret, with_reports. simpl.
  rewrite !insert_insert_eq. do 3 f_equal. unfold report_of.
  by destruct (CPUUtilization S != -1), (MemUtilization S != -1),
    (QPS S != -1), (EPS S != -1).
Qed.

Lemma scalar_reported_if x :
  scalar_reported x (if x != -1 then Some x else None).
Proof.
  split.
  - intros v. destruct (x != -1) eqn:Hx; split.
    + intros [= <-]. done.
    + by intros [<- _].
    + done.
    + intros [<- Hv]. congruence.
  - by intros ->.
Qed.

(** C2: the load report of [sm] has the field cpu_utilization,
    mem_utilization, rps_fractional (from QPS) or eps with value [v] exactly
    when the scalar of [sm] is [v] and [v] is not -1, and omits the field when
    the scalar is -1. *)
Theorem toLoadReportProto_scalars h sm S :
  metrics h !! sm = Some S →
  ∃ r h' R,
    toLoadReportProto sm h = Returns r h' ∧ reports h' !! r = Some R ∧
    scalar_reported (CPUUtilization S) (v3orcapb.CpuUtilization R) ∧
    scalar_reported (MemUtilization S) (v3orcapb.MemUtilization R) ∧
    scalar_reported (QPS S) (v3orcapb.RpsFractional R) ∧
    scalar_reported (EPS S) (v3orcapb.Eps R).
Proof.
  intros Hsm. eexists _, _, (report_of S). split.
  { by apply toLoadReportProto_Returns. }
  split; [heap_lookup|].
  do 3 (split; [apply scalar_reported_if|]). apply scalar_reported_if.
Qed.

(** C4 (amended): the load report carries all three maps of [sm], request_cost
    included: each map field of the report is the very map object the struct
    holds, and no map object is changed by the call. *)
Theorem toLoadReportProto_maps h sm S :
  metrics h !! sm = Some S →
  ∃ r h' R,
    toLoadReportProto sm h = Returns r h' ∧ reports h' !! r = Some R ∧
    v3orcapb.Utilization R = Utilization S ∧
    v3orcapb.RequestCost R = RequestCost S ∧
    v3orcapb.NamedMetrics R = NamedMetrics S ∧
    maps h' = maps h.
Proof.
  intros Hsm. eexists _, _, (report_of S). split.
  { by apply toLoadReportProto_Returns. }
  split; [heap_lookup|done].
Qed.

(** ** What a snapshot reads *)

Lemma value_of_Some h S cU cR cN :
  contents h (Utilization S) = Some cU → contents h (RequestCost S) = Some cR →
  contents h (NamedMetrics S) = Some cN →
  value_of h S
  = Some (mkValue (CPUUtilization S) (MemUtilization S) (QPS S) (EPS S) cU cR cN).
Proof. unfold value_of. intros HU HR HN. by rewrite HU, HR, HN. Qed.

Lemma value_at_inv h p V :
  value_at h p = Some V → ∃ P, metrics h !! p = Some P ∧ value_of h P = Some V.
Proof.
  unfold value_at. destruct (metrics h !! p) as [P|]; [|done]. simpl. eauto.
Qed.

(** The snapshot is a new struct that reads as the recorder's state does. *)
Lemma ServerMetrics_value h s st St V :
  recorder_state h s st St → value_of h St = Some V →
  ∃ p h1,
    Recorder.ServerMetrics s h = Returns p h1 ∧
    metrics h !! p = None ∧ value_at h1 p = Some V.
Proof.
  intros Hrec HV.
  apply value_of_inv in HV as (HU & HR & HN & Hc & Hm & Hq & He).
  destruct (ServerMetrics_Returns _ _ _ _ _ _ _ Hrec HU HR HN)
    as (p & l1 & l2 & l3 & Hrun & Fp & F1 & F2 & F3 & n12 & n13 & n23).
  eexists p, _. split; [exact Hrun|]. split; [done|].
  unfold value_at. simpl. rewrite lookup_insert_eq. simpl.
  rewrite Hc, Hm, Hq, He. destruct V; simpl.
  erewrite value_of_Some; [done|simpl; heap_lookup..].
Qed.

(** ** NewServerMetricsRecorder *)

Lemma NewServerMetricsRecorder_Returns h :
  ∃ s st l1 l2 l3,
    NewServerMetricsRecorder h
    = Returns s
        (mkHeap (<[l3 := ∅]> (<[l2 := ∅]> (<[l1 := ∅]> (maps h))))
                (<[st := mkServerMetrics (-1) (-1) (-1) (-1)
                           (mapref l1) (mapref l2) (mapref l3)]> (metrics h))
                (<[s := mkRecorder false st]> (recorders h))
                (reports h)) ∧
    recorders h !! s = None ∧ metrics h !! st = None ∧
    l1 ≠ l2 ∧ l1 ≠ l3 ∧ l2 ≠ l3.
Proof.
  pose (l1 := fresh (dom (maps h))).
  pose (l2 := fresh (dom (<[l1 := ∅]> (maps h)))).
  pose (l3 := fresh (dom (<[l2 := ∅]> (<[l1 := ∅]> (maps h))))).
  assert (F2 := fresh_lookup (<[l1 := ∅]> (maps h))).
  assert (F3 := fresh_lookup (<[l2 := ∅]> (<[l1 := ∅]> (maps h)))).
  fold l2 in F2. fold l3 in F3.
  apply lookup_insert_None in F2 as [F2 n12].
  apply lookup_insert_None in F3 as [F3 n23].
  apply lookup_insert_None in F3 as [F3 n13].
  exists (fresh (dom (recorders h))), (fresh (dom (metrics h))), l1, l2, l3.
  split; [reflexivity|]. by rewrite !fresh_lookup.
Qed.

(** C6: a new recorder is idle and holds a struct with the four scalars at
    -1 and three different map objects, none nil and all empty; the snapshot
    taken next reads as the "unset" default. *)
Theorem NewServerMetricsRecorder_unset h :
  ∃ s h1 st St,
    NewServerMetricsRecorder h = Returns s h1 ∧
    recorders h !! s = None ∧
    recorder_state h1 s st St ∧
    CPUUtilization St = (-1)%float ∧ MemUtilization St = (-1)%float ∧
    QPS St = (-1)%float ∧ EPS St = (-1)%float ∧
    owns_maps h1 St ∧
    Forall (λ m, contents h1 m = Some ∅) (map_fields St) ∧
    value_of h1 St = Some unset_value ∧
    ∃ p h2,
      Recorder.ServerMetrics s h1 = Returns p h2 ∧
      value_at h2 p = Some unset_value.
Proof.
  destruct (NewServerMetricsRecorder_Returns h)
    as (s & st & l1 & l2 & l3 & Hrun & Fs & Fst & n12 & n13 & n23).
  eexists s, _, st, _. split; [exact Hrun|]. split; [done|].
  assert (Hrec : recorder_state
            (mkHeap (<[l3 := ∅]> (<[l2 := ∅]> (<[l1 := ∅]> (maps h))))
               (<[st := mkServerMetrics (-1) (-1) (-1) (-1)
                          (mapref l1) (mapref l2) (mapref l3)]> (metrics h))
               (<[s := mkRecorder false st]> (recorders h)) (reports h))
            s st (mkServerMetrics (-1) (-1) (-1) (-1)
                    (mapref l1) (mapref l2) (mapref l3))).
  { split; heap_lookup. }
  split; [exact Hrec|]. do 4 (split; [done|]).
  assert (Hval : value_of
            (mkHeap (<[l3 := ∅]> (<[l2 := ∅]> (<[l1 := ∅]> (maps h))))
               (<[st := mkServerMetrics (-1) (-1) (-1) (-1)
                          (mapref l1) (mapref l2) (mapref l3)]> (metrics h))
               (<[s := mkRecorder false st]> (recorders h)) (reports h))
            (mkServerMetrics (-1) (-1) (-1) (-1)
               (mapref l1) (mapref l2) (mapref l3)) = Some unset_value).
  { erewrite value_of_Some; [done|simpl; heap_lookup..]. }
  split; [|split; [|split; [exact Hval|]]].
  - split.
    + repeat apply Forall_cons_2; [..|apply Forall_nil_2];
        (eexists; split; [done|]; eexists; simpl; heap_lookup).
    + unfold map_fields; simpl.
      repeat (apply NoDup_cons; split); try apply NoDup_nil_2;
        rewrite ?not_elem_of_cons, ?elem_of_nil; naive_solver.
  - repeat apply Forall_cons_2; [..|apply Forall_nil_2]; simpl; heap_lookup.
  - destruct (ServerMetrics_value _ _ _ _ _ Hrec Hval) as (p & h2 & Hp & _ & Hv).
    eauto.
Qed.

(** ** Deleting a scalar *)

Lemma maps_live_with_metrics h f S :
  maps_live h S → maps_live (with_metrics f h) S.
Proof.
  unfold maps_live. intros H. eapply Forall_impl; [exact H|].
  intros m Hm. simpl in *. by rewrite contents_with_metrics.
Qed.

Lemma set_scalar_unsets h s st St set scalar field :
  recorder_state h s st St → maps_live h St →
  map_fields (set (-1)%float St) = map_fields St →
  scalar (set (-1)%float St) = (-1)%float →
  (∀ P Q, CPUUtilization P = CPUUtilization Q → MemUtilization P = MemUtilization Q →
          QPS P = QPS Q → EPS P = EPS Q → scalar P = scalar Q) →
  (∀ P, scalar P = (-1)%float → field (report_of P) = None) →
  unsets h s (λ s, locked s (st ← load_state s; update_metrics st (set (-1)%float)))
    scalar field.
Proof.
  intros Hrec Hlive Hfields Hset Hscalar Hfield. unfold unsets.
  assert (Hrec' : recorder_state (with_metrics <[st := set (-1)%float St]> h)
                    s st (set (-1)%float St)).
  { destruct Hrec as [Hs Hst]. split; heap_lookup. }
  assert (Hlive' : maps_live (with_metrics <[st := set (-1)%float St]> h)
                     (set (-1)%float St)).
  { unfold maps_live. rewrite Hfields. by apply maps_live_with_metrics. }
  destruct (maps_live_inv _ _ Hlive') as (cU & cR & cN & HU & HR & HN).
  destruct (ServerMetrics_value _ _ _ _ _ Hrec' (value_of_Some _ _ _ _ _ HU HR HN))
    as (p & h2 & Hp & _ & Hv).
  apply value_at_inv in Hv as (P & HP & Hv).
  apply value_of_inv in Hv as (_ & _ & _ & Hc & Hm & Hq & He). simpl in *.
  assert (HPs : scalar P = (-1)%float).
  { rewrite <- Hset. by apply Hscalar. }
  eexists _, p, h2, P, _, _, (report_of P).
  split; [by apply set_scalar_Returns|].
  split; [exact Hp|]. split; [exact HP|]. split; [exact HPs|].
  split; [by apply toLoadReportProto_Returns|].
  split; [heap_lookup|by apply Hfield].
Qed.

(** C7: each delete of a scalar is the setter called with -1; after it, the
    snapshot has the scalar at -1 and the load report of the snapshot omits
    the field. *)
Theorem delete_scalar_unsets h s st St :
  recorder_state h s st St → maps_live h St →
  (Recorder.DeleteCPUUtilization s = Recorder.SetCPUUtilization s (-1) ∧
   unsets h s Recorder.DeleteCPUUtilization CPUUtilization v3orcapb.CpuUtilization) ∧
  (Recorder.DeleteMemoryUtilization s = Recorder.SetMemoryUtilization s (-1) ∧
   unsets h s Recorder.DeleteMemoryUtilization MemUtilization
     v3orcapb.MemUtilization) ∧
  (Recorder.DeleteQPS s = Recorder.SetQPS s (-1) ∧
   unsets h s Recorder.DeleteQPS QPS v3orcapb.RpsFractional) ∧
  (Recorder.DeleteEPS s = Recorder.SetEPS s (-1) ∧
   unsets h s Recorder.DeleteEPS EPS v3orcapb.Eps).
Proof.
  intros Hrec Hlive.
  repeat split;
    apply (set_scalar_unsets h s st St); try done;
    intros P HP; unfold report_of; simpl; by rewrite HP.
Qed.

(** ** Named entries *)

Lemma maps_live_with_maps h l c c' S :
  maps h !! l = Some c → maps_live h S → maps_live (with_maps <[l := c']> h) S.
Proof.
  unfold maps_live. intros Hl H. eapply Forall_impl; [exact H|].
  intros [|l'] Hm; simpl in *; [done|].
  destruct (decide (l = l')) as [<-|Hne].
  - rewrite lookup_insert_eq. eauto.
  - by rewrite lookup_insert_ne.
Qed.

(** C8: [SetNamedUtilization(x, v)] then a snapshot gives a Utilization map
    with x ↦ v, and [DeleteNamedUtilization(x)] then a snapshot gives one
    without the key x.  The maps of the recorder's state are never nil. *)
Theorem named_utilization_round_trip h s st St x v :
  recorder_state h s st St → maps_live h St → allocated h (Utilization St) →
  (∃ h1 p h2 V,
     Recorder.SetNamedUtilization s x v h = Returns () h1 ∧
     Recorder.ServerMetrics s h1 = Returns p h2 ∧
     value_at h2 p = Some V ∧ utilization V !! x = Some v) ∧
  (∃ h1 p h2 V,
     Recorder.DeleteNamedUtilization s x h = Returns () h1 ∧
     Recorder.ServerMetrics s h1 = Returns p h2 ∧
     value_at h2 p = Some V ∧ utilization V !! x = None).
Proof.
  intros Hrec Hlive (l & HU & [c Hl]).
  assert (Hstep : ∀ c',
    ∃ p h2 V,
      Recorder.ServerMetrics s (with_maps <[l := c']> h) = Returns p h2 ∧
      value_at h2 p = Some V ∧ utilization V = c').
  { intros c'.
    assert (Hrec' : recorder_state (with_maps <[l := c']> h) s st St).
    { destruct Hrec. by split. }
    destruct (maps_live_inv _ _ (maps_live_with_maps _ _ _ c' _ Hl Hlive))
      as (cU & cR & cN & HcU & HcR & HcN).
    destruct (ServerMetrics_value _ _ _ _ _ Hrec' (value_of_Some _ _ _ _ _ HcU HcR HcN))
      as (p & h2 & Hp & _ & Hv).
    eexists p, h2, _. split; [exact Hp|]. split; [exact Hv|]. simpl.
    rewrite HU, contents_insert_eq in HcU. congruence. }
  split.
  - destruct (Hstep (<[x := v]> c)) as (p & h2 & V & Hp & Hv & Hu).
    exists (with_maps <[l := <[x := v]> c]> h), p, h2, V.
    split; [by eapply (set_entry_Returns _ _ _ _ Utilization)|].
    split; [done|]. split; [done|]. rewrite Hu. apply lookup_insert_eq.
  - destruct (Hstep (delete x c)) as (p & h2 & V & Hp & Hv & Hu).
    exists (with_maps <[l := delete x c]> h), p, h2, V.
    split; [by eapply (delete_entry_Returns _ _ _ _ Utilization)|].
    split; [done|]. split; [done|]. rewrite Hu. apply lookup_delete_eq.
Qed.

(** C10: deleting a name that the map does not hold leaves the whole heap as
    it was, so the four scalars and the three maps of the recorder are the
    same before and after the call. *)
Theorem delete_absent_name_unchanged h s st St name :
  recorder_state h s st St →
  (∀ c, contents h (Utilization St) = Some c → c !! name = None →
        Recorder.DeleteNamedUtilization s name h = Returns () h) ∧
  (∀ c, contents h (RequestCost St) = Some c → c !! name = None →
        Recorder.DeleteRequestCost s name h = Returns () h) ∧
  (∀ c, contents h (NamedMetrics St) = Some c → c !! name = None →
        Recorder.DeleteNamedMetric s name h = Returns () h).
Proof.
  intros Hrec.
  assert (Hdel : ∀ (field : ServerMetrics → gomap) c,
    contents h (field St) = Some c → c !! name = None →
    locked s (st ← load_state s; st_ ← load_metrics st;
              map_delete (field st_) name) h = Returns () h).
  { intros field c Hc Hname. destruct (field St) as [|l] eqn:Hf.
    - by eapply delete_entry_nil.
    - simpl in Hc. erewrite delete_entry_Returns; [|done..].
      by rewrite delete_id, with_maps_id. }
  repeat split; intros c Hc Hname.
  - exact (Hdel Utilization c Hc Hname).
  - exact (Hdel RequestCost c Hc Hname).
  - exact (Hdel NamedMetrics c Hc Hname).
Qed.

(** ** What a call leaves alone *)

Lemma allocated_live h S :
  Forall (allocated h) (map_fields S) → maps_live h S.
Proof.
  unfold maps_live. intros H. eapply Forall_impl; [exact H|].
  intros m Hm. destruct Hm as (l & -> & Hl). exact Hl.
Qed.

Lemma allocated_with_maps h l c m :
  allocated h m → allocated (with_maps <[l := c]> h) m.
Proof.
  intros (l' & -> & Hl'). exists l'. split; [done|]. simpl.
  destruct (decide (l = l')) as [<-|Hne].
  - rewrite lookup_insert_eq. eauto.
  - by rewrite lookup_insert_ne.
Qed.

Section frame.

(** A recorder [s] whose state is the struct at [st]. *)
Variables (s st : loc).

Lemma call_post_scalar h St f :
  recorder_state h s st St → Forall (allocated h) (map_fields St) →
  map_fields (f St) = map_fields St →
  call_post s st St h (with_metrics <[st := f St]> h).
Proof.
  intros [Hs Hst] Hal Hf. exists (f St).
  split; [split; heap_lookup|]. split; [done|]. split.
  - rewrite Hf. eapply Forall_impl; [exact Hal|]. intros m Hm. done.
  - split; [|done]. intros q X Hne HX. simpl. by rewrite lookup_insert_ne.
Qed.

Lemma call_post_entry h St l c :
  recorder_state h s st St → Forall (allocated h) (map_fields St) →
  mapref l ∈ map_fields St →
  call_post s st St h (with_maps <[l := c]> h).
Proof.
  intros [Hs Hst] Hal Hin. exists St.
  split; [by split|]. split; [done|]. split.
  - eapply Forall_impl; [exact Hal|]. intros m Hm. by apply allocated_with_maps.
  - split; [done|]. intros l' c' Hne Hl'. simpl.
    rewrite lookup_insert_ne; [done|]. by intros ->.
Qed.

Lemma call_post_refl h St :
  recorder_state h s st St → Forall (allocated h) (map_fields St) →
  call_post s st St h h.
Proof.
  intros Hrec Hal. exists St. do 3 (split; [done|]). split; by intros.
Qed.

Lemma call_post_snapshot h St :
  recorder_state h s st St → Forall (allocated h) (map_fields St) →
  ∃ p h', Recorder.ServerMetrics s h = Returns p h' ∧ call_post s st St h h'.
Proof.
  intros Hrec Hal.
  destruct (maps_live_inv _ _ (allocated_live _ _ Hal))
    as (cU & cR & cN & HU & HR & HN).
  destruct (ServerMetrics_Returns _ _ _ _ _ _ _ Hrec HU HR HN)
    as (p & l1 & l2 & l3 & Hrun & Fp & F1 & F2 & F3 & n12 & n13 & n23).
  eexists p, _. split; [exact Hrun|].
  destruct Hrec as [Hs Hst]. exists St. split; [|split; [done|split]].
  - split; [done|]. simpl. rewrite lookup_insert_ne; [done|]. congruence.
  - eapply Forall_impl; [exact Hal|]. intros m (l & -> & Hl).
    exists l. split; [done|]. simpl.
    destruct Hl as [c Hl]. exists c.
    rewrite !lookup_insert_ne; [done|congruence..].
  - split.
    + intros q X Hne HX. simpl. rewrite lookup_insert_ne; [done|]. congruence.
    + intros l c Hl Hc. simpl. rewrite !lookup_insert_ne; [done|congruence..].
Qed.

(** Every call on an idle recorder whose maps are map objects returns, leaves
    the recorder idle, and writes to nothing but the recorder's own struct
    and maps. *)
Lemma run_call_post h St c :
  recorder_state h s st St → Forall (allocated h) (map_fields St) →
  ∃ h', Call.run s c h = Returns () h' ∧ call_post s st St h h'.
Proof.
  intros Hrec Hal.
  assert (HalU := Hal). assert (HalR := Hal). assert (HalN := Hal).
  rewrite Forall_forall in HalU, HalR, HalN.
  specialize (HalU _ (Utilization_field St)) as (lU & HU & [cU HcU]).
  specialize (HalR _ (RequestCost_field St)) as (lR & HR & [cR HcR]).
  specialize (HalN _ (NamedMetrics_field St)) as (lN & HN & [cN HcN]).
  assert (InU := Utilization_field St). rewrite HU in InU.
  assert (InR := RequestCost_field St). rewrite HR in InR.
  assert (InN := NamedMetrics_field St). rewrite HN in InN.
  destruct c; simpl.
  1-8: (eexists; split; [by apply set_scalar_Returns|];
        by apply call_post_scalar).
  - eexists; split; [by eapply (set_entry_Returns _ _ _ _ Utilization)|].
    by apply call_post_entry.
  - eexists; split; [by eapply (delete_entry_Returns _ _ _ _ Utilization)|].
    by apply call_post_entry.
  - eexists; split; [by eapply (set_entry_Returns _ _ _ _ RequestCost)|].
    by apply call_post_entry.
  - eexists; split; [by eapply (delete_entry_Returns _ _ _ _ RequestCost)|].
    by apply call_post_entry.
  - eexists; split; [by eapply (set_entry_Returns _ _ _ _ NamedMetrics)|].
    by apply call_post_entry.
  - eexists; split; [by eapply (delete_entry_Returns _ _ _ _ NamedMetrics)|].
    by apply call_post_entry.
  - destruct (call_post_snapshot _ _ Hrec Hal) as (p & h' & Hrun & Hpost).
    exists h'. split; [|done]. by erewrite bind_Returns.
Qed.

Lemma call_post_trans St h1 h2 h3 St2 :
  call_post s st St h1 h2 → recorder_state h2 s st St2 →
  call_post s st St2 h2 h3 → call_post s st St h1 h3.
Proof.
  intros (St2' & [Hs2 Hst2] & Hf2 & Hal2 & Hk2 & Hm2) [_ Hst2']
         (St3 & Hrec3 & Hf3 & Hal3 & Hk3 & Hm3).
  assert (St2' = St2) as -> by congruence.
  exists St3. split; [done|]. split; [congruence|]. split; [done|]. split.
  - intros q X Hne HX. by apply Hk3, Hk2.
  - intros l c Hl Hc. apply Hm3; [by rewrite Hf2|]. by apply Hm2.
Qed.

Lemma run_calls_post cs : ∀ h St,
  recorder_state h s st St → Forall (allocated h) (map_fields St) →
  ∃ h', run_calls s cs h = Returns () h' ∧ call_post s st St h h'.
Proof.
  induction cs as [|c cs IH]; intros h St Hrec Hal; simpl.
  - exists h. split; [done|]. by apply call_post_refl.
  - destruct (run_call_post _ _ c Hrec Hal) as (h1 & Hrun & Hpost).
    assert (Hpost' := Hpost).
    destruct Hpost' as (St1 & Hrec1 & Hf1 & Hal1 & _).
    destruct (IH _ _ Hrec1 Hal1) as (h2 & Hrun2 & Hpost2).
    exists h2. split; [by erewrite bind_Returns|].
    by eapply call_post_trans.
Qed.

End frame.

(** ** Independence of a snapshot *)

(** C3: the snapshot of a recorder reads as the recorder's state does and is
    made of new objects only (a new struct with three new, different map
    objects), so it shares nothing with the recorder or with an earlier
    snapshot.  Whatever is then written to the snapshot's struct and maps,
    the recorder's state and the next snapshot read the same; whatever calls
    are then made on the recorder, the snapshot reads the same. *)
Theorem snapshot_independent h s st St :
  recorder_state h s st St → Forall (allocated h) (map_fields St) →
  ∃ p h1 P V,
    Recorder.ServerMetrics s h = Returns p h1 ∧
    value_at h st = Some V ∧ value_at h1 p = Some V ∧ value_at h1 st = Some V ∧
    metrics h !! p = None ∧ metrics h1 !! p = Some P ∧
    Forall (λ m, ∃ l, m = mapref l ∧ maps h !! l = None) (map_fields P) ∧
    NoDup (map_fields P) ∧
    (∀ q X, metrics h !! q = Some X → metrics h1 !! q = Some X) ∧
    (∀ l c, maps h !! l = Some c → maps h1 !! l = Some c) ∧
    (∀ h2, mutated_at p h1 h2 →
       value_at h2 st = Some V ∧
       ∃ q h3, Recorder.ServerMetrics s h2 = Returns q h3 ∧
               value_at h3 q = Some V) ∧
    (∀ cs, ∃ h2, run_calls s cs h1 = Returns () h2 ∧ value_at h2 p = Some V).
Proof.
  intros Hrec Hal.
  destruct (maps_live_inv _ _ (allocated_live _ _ Hal))
    as (cU & cR & cN & HU & HR & HN).
  destruct (ServerMetrics_Returns _ _ _ _ _ _ _ Hrec HU HR HN)
    as (p & l1 & l2 & l3 & Hrun & Fp & F1 & F2 & F3 & n12 & n13 & n23).
  assert (HV := value_of_Some _ _ _ _ _ HU HR HN).
  destruct (call_post_snapshot _ _ _ _ Hrec Hal) as (p' & h1' & Hrun' & Hpost).
  rewrite Hrun in Hrun'. injection Hrun' as <- <-.
  destruct Hpost as (St' & Hrec1 & _ & Hal1 & Hkm & Hkl).
  assert (Hst := proj2 Hrec). assert (Hst1 := proj2 Hrec1).
  assert (St' = St) as ->.
  { simpl in Hst1. rewrite lookup_insert_ne in Hst1; congruence. }
  set (P := mkServerMetrics (CPUUtilization St) (MemUtilization St) (QPS St)
              (EPS St) (mapref l1) (mapref l2) (mapref l3)) in *.
  set (h1 := mkHeap _ _ _ _) in *.
  assert (Hp1 : metrics h1 !! p = Some P) by (subst h1; heap_lookup).
  assert (Hext : ∀ l c, maps h !! l = Some c → maps h1 !! l = Some c).
  { intros l c Hl. subst h1. simpl.
    rewrite !lookup_insert_ne; [done|congruence..]. }
  (* the maps of the recorder read in [h1] as in [h] *)
  assert (Hc1 : ∀ m c, m ∈ map_fields St → contents h m = Some c →
                       contents h1 m = Some c).
  { intros m c Hm Hc. rewrite Forall_forall in Hal.
    destruct (Hal _ Hm) as (l & -> & _). by apply Hext. }
  assert (HV1 : value_of h1 St = Some
            (mkValue (CPUUtilization St) (MemUtilization St) (QPS St) (EPS St)
               cU cR cN)).
  { apply value_of_Some; apply Hc1;
      auto with fields. }
  assert (HVp : value_of h1 P = Some
            (mkValue (CPUUtilization St) (MemUtilization St) (QPS St) (EPS St)
               cU cR cN)).
  { subst h1 P. erewrite value_of_Some; [done|simpl; heap_lookup..]. }
  (* no map of the recorder is a map of the snapshot *)
  assert (Hsep : ∀ l, mapref l ∈ map_fields St → mapref l ∉ map_fields P).
  { intros l Hl. rewrite Forall_forall in Hal.
    destruct (Hal _ Hl) as (l' & [= <-] & [c Hc]).
    subst P. unfold map_fields; simpl.
    rewrite !not_elem_of_cons, elem_of_nil. repeat split; congruence. }
  exists p, h1, P, (mkValue (CPUUtilization St) (MemUtilization St) (QPS St)
                      (EPS St) cU cR cN).
  split; [exact Hrun|].
  split; [unfold value_at; by rewrite Hst|].
  split; [unfold value_at; by rewrite Hp1|].
  split; [unfold value_at; by rewrite Hst1|].
  split; [done|]. split; [done|].
  split.
  { subst P. unfold map_fields; simpl.
    repeat apply Forall_cons_2; [..|apply Forall_nil_2]; eauto. }
  split.
  { subst P. unfold map_fields; simpl.
    repeat (apply NoDup_cons; split); try apply NoDup_nil_2;
      rewrite ?not_elem_of_cons, ?elem_of_nil; repeat split; congruence. }
  split.
  { intros q X HX. subst h1. simpl. rewrite lookup_insert_ne; [done|congruence]. }
  split; [exact Hext|].
  split.
  - intros h2 (P' & HP' & Hm2 & Hl2 & Hr2).
    assert (P' = P) as -> by congruence.
    assert (Hne : st ≠ p) by congruence.
    assert (Hrec2 : recorder_state h2 s st St).
    { split; [rewrite Hr2; apply Hrec1|]. by rewrite Hm2. }
    assert (HV2 : value_of h2 St = Some
              (mkValue (CPUUtilization St) (MemUtilization St) (QPS St) (EPS St)
                 cU cR cN)).
    { rewrite <- HV1. unfold value_of.
      assert (Hc2 : ∀ m, m ∈ map_fields St → contents h2 m = contents h1 m).
      { intros [|l] Hm; [done|]. simpl. by apply Hl2, Hsep. }
      by rewrite !Hc2
        by auto with fields. }
    split.
    + unfold value_at. by rewrite (proj2 Hrec2).
    + destruct (ServerMetrics_value _ _ _ _ _ Hrec2 HV2) as (q & h3 & Hq & _ & Hv).
      eauto.
  - intros cs.
    destruct (run_calls_post s st cs _ _ Hrec1 Hal1)
      as (h2 & Hrun2 & St2 & _ & _ & _ & Hkm2 & Hkl2).
    exists h2. split; [exact Hrun2|].
    unfold value_at. rewrite (Hkm2 p P); [|congruence|done]. simpl.
    rewrite <- HVp. unfold value_of. subst P. simpl.
    assert (Hfresh : ∀ l, maps h !! l = None → mapref l ∉ map_fields St).
    { intros l Hl Hin. rewrite Forall_forall in Hal.
      destruct (Hal _ Hin) as (l' & [= <-] & [c Hc]). congruence. }
    assert (H1 : maps h1 !! l1 = Some cU) by (subst h1; heap_lookup).
    assert (H2 : maps h1 !! l2 = Some cR) by (subst h1; heap_lookup).
    assert (H3 : maps h1 !! l3 = Some cN) by (subst h1; heap_lookup).
    rewrite (Hkl2 l1 cU), (Hkl2 l2 cR), (Hkl2 l3 cN) by auto.
    unfold h1 in H1, H2, H3. simpl in H1, H2, H3. by rewrite H1, H2, H3.
Qed.

(** ** Calls made one after the other *)

Lemma set_named_metrics_run s st St l kvs : ∀ h c,
  recorder_state h s st St → NamedMetrics St = mapref l → maps h !! l = Some c →
  run_calls s (named_metric_calls kvs) h
  = Returns () (with_maps <[l := foldl assign_entry c kvs]> h).
Proof.
  induction kvs as [|[k v] kvs IH]; intros h c Hrec HN Hl; simpl.
  - by rewrite with_maps_id.
  - go_step ltac:(by eapply (set_entry_Returns _ _ _ _ NamedMetrics)).
    erewrite IH; [|by destruct Hrec|done|heap_lookup].
    unfold with_maps; simpl. by rewrite insert_insert_eq.
Qed.

(** X19: [SetNamedMetric] called once for each of N different names, in any
    order, and then a snapshot: all N entries are there.  This is what every
    sequential order of the calls gives; that concurrent calls behave as one
    such order is the mutex's doing and is not modelled here. *)
Lemma set_named_metrics_any_order h s st St kvs kvs' :
  recorder_state h s st St → Forall (allocated h) (map_fields St) →
  NoDup kvs.*1 → kvs' ≡ₚ kvs →
  ∃ h1 p h2 V,
    run_calls s (named_metric_calls kvs') h = Returns () h1 ∧
    Recorder.ServerMetrics s h1 = Returns p h2 ∧
    value_at h2 p = Some V ∧
    ∀ k v, (k, v) ∈ kvs → named_metrics V !! k = Some v.
Proof.
  intros Hrec Hal Hnd Hp.
  assert (HalN := Hal). rewrite Forall_forall in HalN.
  specialize (HalN _ (NamedMetrics_field St)) as (l & HN & [c Hl]).
  assert (Hnd' : NoDup kvs'.*1) by by rewrite Hp.
  pose (c' := foldl assign_entry c kvs').
  assert (Hrec' : recorder_state (with_maps <[l := c']> h) s st St).
  { by destruct Hrec. }
  destruct (maps_live_inv _ _
              (maps_live_with_maps _ _ _ c' _ Hl (allocated_live _ _ Hal)))
    as (cU & cR & cN & HcU & HcR & HcN).
  destruct (ServerMetrics_value _ _ _ _ _ Hrec' (value_of_Some _ _ _ _ _ HcU HcR HcN))
    as (p & h2 & Hrun & _ & Hv).
  eexists _, p, h2, _. split; [by eapply set_named_metrics_run|].
  split; [exact Hrun|]. split; [exact Hv|]. simpl.
  intros k v Hkv. rewrite HN, contents_insert_eq in HcN.
  injection HcN as <-. unfold c'. rewrite foldl_assign_union; [|done].
  apply lookup_union_Some_l, elem_of_list_to_map; [done|]. by rewrite Hp.
Qed.

(** * Concrete runs *)

Example recorder_heap_run :
  (s ← NewServerMetricsRecorder;
   Recorder.SetNamedUtilization s "x" 0.5 ;;
   Recorder.SetCPUUtilization s 0.25 ;;
   mret s) empty_heap
  = Returns 1%positive recorder_heap.
Proof. vm_compute. reflexivity. Qed.

Example merge_example :
  ∃ h', merge 1 2 example_heap = Returns () h' ∧
        value_at h' 1
        = Some (mkValue 0x1.3333333333333p-2 (-1) 10 (-1)
                  (<["a" := 2%float]> {[ "b" := 3%float ]})
                  {[ "c" := 4%float ]} ∅).
Proof. eexists. split; vm_compute; reflexivity. Qed.

Example toLoadReportProto_example :
  ∃ r h',
    toLoadReportProto 1 example_heap = Returns r h' ∧
    reports h' !! r
    = Some (v3orcapb.mkOrcaLoadReport (Some 0x1.3333333333333p-2%float)
              None None None (mapref 1) (mapref 2) (mapref 3)).
Proof. eexists _, _. split; vm_compute; reflexivity. Qed.

(** Tactics that evaluate the hypotheses of the theorems on a concrete heap. *)
Ltac eval_lookup := vm_compute; reflexivity.

Ltac eval_allocated :=
  repeat apply Forall_cons_2; [..|apply Forall_nil_2];
  (eexists; split; [reflexivity|eexists; eval_lookup]).

Ltac eval_live :=
  repeat apply Forall_cons_2; [..|apply Forall_nil_2];
  (eexists; eval_lookup).

Ltac eval_NoDup := apply (bool_decide_unpack _); vm_compute; exact I.

Ltac eval_apart :=
  let m := fresh "m" in
  let H1 := fresh "H" in
  let H2 := fresh "H" in
  intros m H1 H2; unfold map_fields in H1, H2; simpl in H1, H2;
  rewrite !elem_of_cons, elem_of_nil in H1;
  rewrite !elem_of_cons, elem_of_nil in H2;
  destruct H1 as [->|[->|[->|[]]]]; destruct H2 as [?|[?|[?|[]]]];
  discriminate.

Ltac eval_recorder := split; eval_lookup.

(** The merge of the spec's example, through [merge_overwrites]. *)
Lemma merge_overwrites_witness :
  ∃ h' S',
    merge 1 2 example_heap = Returns () h' ∧
    metrics h' !! 1%positive = Some S' ∧
    CPUUtilization S'
      = (if CPUUtilization example_B != -1
         then CPUUtilization example_B else CPUUtilization example_A) ∧
    MemUtilization S'
      = (if MemUtilization example_B != -1
         then MemUtilization example_B else MemUtilization example_A) ∧
    QPS S' = (if QPS example_B != -1 then QPS example_B else QPS example_A) ∧
    EPS S' = (if EPS example_B != -1 then EPS example_B else EPS example_A) ∧
    map_fields S' = map_fields example_A ∧
    merged_map example_heap h' (Utilization example_A) (Utilization example_B) ∧
    merged_map example_heap h' (RequestCost example_A) (RequestCost example_B) ∧
    merged_map example_heap h' (NamedMetrics example_A) (NamedMetrics example_B).
Proof.
  apply (merge_overwrites example_heap 1%positive 2%positive example_A example_B).
  - eval_lookup.
  - eval_lookup.
  - split; [eval_allocated|eval_NoDup].
  - eval_live.
  - eval_apart.
Defined.

Lemma toLoadReportProto_scalars_witness :
  ∃ r h' R,
    toLoadReportProto 1 example_heap = Returns r h' ∧ reports h' !! r = Some R ∧
    scalar_reported (CPUUtilization example_A) (v3orcapb.CpuUtilization R) ∧
    scalar_reported (MemUtilization example_A) (v3orcapb.MemUtilization R) ∧
    scalar_reported (QPS example_A) (v3orcapb.RpsFractional R) ∧
    scalar_reported (EPS example_A) (v3orcapb.Eps R).
Proof.
  apply (toLoadReportProto_scalars example_heap 1%positive example_A). eval_lookup.
Defined.

(** The report of B, whose request_cost map holds c ↦ 4, has that entry. *)
Lemma toLoadReportProto_request_cost_included : ¬ request_cost_left_out.
Proof.
  intros H.
  specialize (H example_heap 2%positive 1%positive
                (with_reports <[1%positive := report_of example_B]> example_heap)
                (report_of example_B)).
  assert (E : contents
            (with_reports <[1%positive := report_of example_B]> example_heap)
            (v3orcapb.RequestCost (report_of example_B)) = Some ∅).
  { apply H; eval_lookup. }
  apply (f_equal (λ o, (λ c : gmap string float64, size c) <$> o)) in E.
  vm_compute in E. discriminate E.
Qed.

Lemma toLoadReportProto_maps_witness :
  ∃ r h' R,
    toLoadReportProto 2 example_heap = Returns r h' ∧ reports h' !! r = Some R ∧
    v3orcapb.Utilization R = Utilization example_B ∧
    v3orcapb.RequestCost R = RequestCost example_B ∧
    v3orcapb.NamedMetrics R = NamedMetrics example_B ∧
    maps h' = maps example_heap.
Proof.
  apply (toLoadReportProto_maps example_heap 2%positive example_B). eval_lookup.
Defined.

Lemma snapshot_independent_witness :
  ∃ p h1 P V,
    Recorder.ServerMetrics 1 recorder_heap = Returns p h1 ∧
    value_at recorder_heap 1 = Some V ∧ value_at h1 p = Some V ∧
    value_at h1 1 = Some V ∧
    metrics recorder_heap !! p = None ∧ metrics h1 !! p = Some P ∧
    Forall (λ m, ∃ l, m = mapref l ∧ maps recorder_heap !! l = None)
      (map_fields P) ∧
    NoDup (map_fields P) ∧
    (∀ q X, metrics recorder_heap !! q = Some X → metrics h1 !! q = Some X) ∧
    (∀ l c, maps recorder_heap !! l = Some c → maps h1 !! l = Some c) ∧
    (∀ h2, mutated_at p h1 h2 →
       value_at h2 1 = Some V ∧
       ∃ q h3, Recorder.ServerMetrics 1 h2 = Returns q h3 ∧
               value_at h3 q = Some V) ∧
    (∀ cs, ∃ h2, run_calls 1 cs h1 = Returns () h2 ∧ value_at h2 p = Some V).
Proof.
  apply (snapshot_independent recorder_heap 1%positive 1%positive recorder_struct).
  - eval_recorder.
  - eval_allocated.
Defined.

Lemma delete_scalar_unsets_witness :
  (Recorder.DeleteCPUUtilization 1 = Recorder.SetCPUUtilization 1 (-1) ∧
   unsets recorder_heap 1 Recorder.DeleteCPUUtilization CPUUtilization
     v3orcapb.CpuUtilization) ∧
  (Recorder.DeleteMemoryUtilization 1 = Recorder.SetMemoryUtilization 1 (-1) ∧
   unsets recorder_heap 1 Recorder.DeleteMemoryUtilization MemUtilization
     v3orcapb.MemUtilization) ∧
  (Recorder.DeleteQPS 1 = Recorder.SetQPS 1 (-1) ∧
   unsets recorder_heap 1 Recorder.DeleteQPS QPS v3orcapb.RpsFractional) ∧
  (Recorder.DeleteEPS 1 = Recorder.SetEPS 1 (-1) ∧
   unsets recorder_heap 1 Recorder.DeleteEPS EPS v3orcapb.Eps).
Proof.
  apply (delete_scalar_unsets recorder_heap 1%positive 1%positive recorder_struct).
  - eval_recorder.
  - eval_live.
Defined.

Lemma named_utilization_round_trip_witness :
  (∃ h1 p h2 V,
     Recorder.SetNamedUtilization 1 "x" 0.5 recorder_heap = Returns () h1 ∧
     Recorder.ServerMetrics 1 h1 = Returns p h2 ∧
     value_at h2 p = Some V ∧ utilization V !! "x" = Some 0.5%float) ∧
  (∃ h1 p h2 V,
     Recorder.DeleteNamedUtilization 1 "x" recorder_heap = Returns () h1 ∧
     Recorder.ServerMetrics 1 h1 = Returns p h2 ∧
     value_at h2 p = Some V ∧ utilization V !! "x" = None).
Proof.
  apply (named_utilization_round_trip recorder_heap 1%positive 1%positive recorder_struct).
  - eval_recorder.
  - eval_live.
  - eexists. split; [reflexivity|]. eexists. eval_lookup.
Defined.

Lemma merge_unset_identity_and_idempotent_witness :
  merge 1 2 recorder_merge_heap = Returns () recorder_merge_heap ∧
  ∃ h1, merge 1 2 example_heap = Returns () h1 ∧ merge 1 2 h1 = Returns () h1.
Proof.
  split.
  - apply (proj1 merge_unset_identity_and_idempotent recorder_merge_heap
             1%positive 2%positive
             recorder_struct unset_struct); eval_lookup.
  - apply (proj2 merge_unset_identity_and_idempotent example_heap
             1%positive 2%positive
             example_A example_B).
    + eval_lookup.
    + eval_lookup.
    + split; [eval_allocated|eval_NoDup].
    + eval_live.
    + eval_apart.
Defined.

Lemma delete_absent_name_unchanged_witness :
  (∀ c, contents recorder_heap (Utilization recorder_struct) = Some c →
        c !! "y" = None →
        Recorder.DeleteNamedUtilization 1 "y" recorder_heap
        = Returns () recorder_heap) ∧
  (∀ c, contents recorder_heap (RequestCost recorder_struct) = Some c →
        c !! "y" = None →
        Recorder.DeleteRequestCost 1 "y" recorder_heap
        = Returns () recorder_heap) ∧
  (∀ c, contents recorder_heap (NamedMetrics recorder_struct) = Some c →
        c !! "y" = None →
        Recorder.DeleteNamedMetric 1 "y" recorder_heap
        = Returns () recorder_heap).
Proof.
  apply (delete_absent_name_unchanged recorder_heap 1%positive 1%positive recorder_struct).
  eval_recorder.
Defined.

(** * Further properties of the code *)

(** ** mergeMap, copyMap and their loop *)

(** X1: [mergeMap(nil, b)] returns, writing nothing, when [b] has no entry, and
    panics on the first entry otherwise. *)
Theorem mergeMap_nil_receiver h b cb :
  contents h b = Some cb →
  (cb = ∅ → mergeMap nilmap b h = Returns () h) ∧
  (cb ≠ ∅ → mergeMap nilmap b h = Panics).
Proof.
  intros Hb. split.
  - intros ->. by apply mergeMap_empty.
  - intros Hne. by eapply mergeMap_nil_target.
Qed.

Lemma mergeMap_nil_receiver_witness :
  (<["a" := 2%float]> {[ "b" := 3%float ]} = (∅ : gmap string float64) →
   mergeMap nilmap (mapref 4) example_heap = Returns () example_heap) ∧
  (<["a" := 2%float]> {[ "b" := 3%float ]} ≠ (∅ : gmap string float64) →
   mergeMap nilmap (mapref 4) example_heap = Panics).
Proof.
  apply (mergeMap_nil_receiver example_heap (mapref 4)). eval_lookup.
Defined.

Lemma merge_nil_receiver_Panics_witness :
  merge 2 1 recorder_merge_heap = Panics.
Proof.
  apply (merge_nil_receiver_Panics recorder_merge_heap 2%positive 1%positive
           unset_struct recorder_struct {[ "x" := 0.5%float ]}).
  - eval_lookup.
  - eval_lookup.
  - discriminate.
  - reflexivity.
  - eval_lookup.
  - intros H. apply (f_equal size) in H. vm_compute in H. discriminate H.
Defined.

(** X3: the loop [for k, v := range b { a[k] = v }] of [mergeMap] and
    [copyMap] does the same whatever the order in which Go visits the entries of [b]:
    two visiting orders of the same entries give the same outcome. *)
Theorem range_assign_order_irrelevant h a es1 es2 :
  es1 ≡ₚ es2 → NoDup es1.*1 → is_Some (contents h a) →
  for_range es1 (λ k v, map_assign a k v) h
  = for_range es2 (λ k v, map_assign a k v) h.
Proof.
  intros Hp Hnd [c Hc]. destruct a as [|l].
  - rewrite !for_range_nil_target. destruct es1 as [|e1 es1].
    + by apply Permutation_nil_l in Hp as <-.
    + destruct es2; [|done]. by apply Permutation_nil_r in Hp.
  - simpl in Hc. rewrite !(for_range_assign _ _ _ _ Hc).
    rewrite !foldl_assign_union; [|by rewrite <- Hp|done].
    by rewrite (list_to_map_proper es1 es2).
Qed.

Lemma range_assign_order_irrelevant_witness :
  for_range [("a", 2%float); ("b", 3%float)]
    (λ k v, map_assign (mapref 1) k v) example_heap
  = for_range [("b", 3%float); ("a", 2%float)]
      (λ k v, map_assign (mapref 1) k v) example_heap.
Proof.
  apply (range_assign_order_irrelevant example_heap (mapref 1)).
  - apply perm_swap.
  - eval_NoDup.
  - eexists. eval_lookup.
Defined.

(** X4: [copyMap(m)] never returns nil and never returns [m] itself: the result
    is a map object that did not exist before the call and holds the entries
    of [m] (none when [m] is nil); [m] and every other object are as
    before. *)
Theorem copyMap_fresh_copy h m c :
  contents h m = Some c →
  ∃ l h',
    copyMap m h = Returns (mapref l) h' ∧
    maps h !! l = None ∧ maps h' !! l = Some c ∧ contents h' m = Some c ∧
    (∀ l' c', maps h !! l' = Some c' → maps h' !! l' = Some c') ∧
    metrics h' = metrics h ∧ recorders h' = recorders h ∧
    reports h' = reports h.
Proof.
  intros Hm. eexists _, _. split; [by apply copyMap_Returns|].
  assert (F := fresh_lookup (maps h)).
  split; [done|]. split; [heap_lookup|].
  split; [by apply contents_insert_fresh|].
  split; [|done]. intros l' c' Hl'. simpl.
  rewrite lookup_insert_ne; [done|congruence].
Qed.

Lemma copyMap_fresh_copy_witness :
  ∃ l h',
    copyMap nilmap example_heap = Returns (mapref l) h' ∧
    maps example_heap !! l = None ∧ maps h' !! l = Some ∅ ∧
    contents h' nilmap = Some ∅ ∧
    (∀ l' c', maps example_heap !! l' = Some c' → maps h' !! l' = Some c') ∧
    metrics h' = metrics example_heap ∧ recorders h' = recorders example_heap ∧
    reports h' = reports example_heap.
Proof. apply (copyMap_fresh_copy example_heap nilmap ∅). reflexivity. Defined.

(** ** merge: what it reads as, what it leaves alone, how it composes *)

Lemma value_of_agree h h' S :
  (∀ m, m ∈ map_fields S → contents h' m = contents h m) →
  value_of h' S = value_of h S.
Proof.
  intros Hc. unfold value_of. by rewrite !Hc by auto with fields.
Qed.

(** A map of [O] is no map of [S] when [S] owns its maps and shares none. *)
Lemma apart_not_field h S O m :
  owns_maps h S → maps_apart S O → m ∈ map_fields O → m ∉ map_fields S.
Proof.
  intros [Hal _] Hap HO HS. specialize (Hap _ HS HO) as ->.
  rewrite Forall_forall in Hal. by destruct (Hal _ HS) as (l & Hl & _).
Qed.

Lemma apart_ne h sm o S O :
  metrics h !! sm = Some S → metrics h !! o = Some O →
  owns_maps h S → maps_apart S O → sm ≠ o.
Proof.
  intros Hsm Ho Hown Hap ->. rewrite Hsm in Ho. injection Ho as <-.
  by apply (apart_not_field _ _ _ _ Hown Hap (Utilization_field S)),
    Utilization_field.
Qed.

(** The heap after [sm.merge(o)] on operands that satisfy the invariant of
    the data model. *)
Lemma merge_effect h sm o S O V VO :
  metrics h !! sm = Some S → metrics h !! o = Some O →
  owns_maps h S → maps_apart S O →
  value_of h S = Some V → value_of h O = Some VO →
  ∃ h',
    merge sm o h = Returns () h' ∧
    metrics h' !! sm = Some (merged_struct S O) ∧
    value_of h' (merged_struct S O) = Some (merge_values V VO) ∧
    owns_maps h' (merged_struct S O) ∧
    only_changes sm S h h'.
Proof.
  intros Hsm Ho Hown Hap HV HVO.
  assert (Hne := apart_ne _ _ _ _ _ Hsm Ho Hown Hap).
  assert (xU := apart_not_field _ _ _ _ Hown Hap (Utilization_field O)).
  assert (xR := apart_not_field _ _ _ _ Hown Hap (RequestCost_field O)).
  assert (xN := apart_not_field _ _ _ _ Hown Hap (NamedMetrics_field O)).
  destruct (owns_maps_inv _ _ Hown)
    as (lU & lR & lN & cU & cR & cN & HU & HR & HN & HcU & HcR & HcN & n1 & n2 & n3).
  assert (InU := Utilization_field S). rewrite HU in InU.
  assert (InR := RequestCost_field S). rewrite HR in InR.
  assert (InN := NamedMetrics_field S). rewrite HN in InN.
  apply value_of_inv in HV as (HVU & HVR & HVN & Hc & Hm & Hq & He).
  apply value_of_inv in HVO as (HoU & HoR & HoN & Hoc & Hom & Hoq & Hoe).
  rewrite HU in HVU. rewrite HR in HVR. rewrite HN in HVN. simpl in HVU, HVR, HVN.
  assert (x1 : RequestCost O ≠ mapref lU) by (intros E; by rewrite E in xR).
  assert (x2 : NamedMetrics O ≠ mapref lU) by (intros E; by rewrite E in xN).
  assert (x3 : NamedMetrics O ≠ mapref lR) by (intros E; by rewrite E in xN).
  eexists. split.
  { by eapply (merge_Returns h sm o S O lU lR lN). }
  split; [heap_lookup|]. split; [|split].
  - unfold merge_values, merge_scalar.
    rewrite <- Hc, <- Hm, <- Hq, <- He, <- Hoc, <- Hom, <- Hoq, <- Hoe.
    assert (cU = utilization V) as <- by congruence.
    assert (cR = request_cost V) as <- by congruence.
    assert (cN = named_metrics V) as <- by congruence.
    apply value_of_Some; simpl; rewrite ?HU, ?HR, ?HN; heap_lookup.
  - split; [|apply Hown].
    unfold map_fields; simpl. rewrite HU, HR, HN.
    repeat apply Forall_cons_2; [..|apply Forall_nil_2];
      (eexists; split; [done|]; eexists; heap_lookup).
  - split; [|split; [|done]].
    + intros q Hq'. simpl. by rewrite lookup_insert_ne.
    + intros [|l] Hl; [done|]. simpl.
      rewrite !lookup_insert_ne; [done|by intros ->..].
Qed.

(** X5: after [sm.merge(o)], [sm] reads as [merge_values] of what [sm] and [o]
    read before, [o] reads as before, and no struct, map, recorder or load
    report other than [sm] and its maps has changed. *)
Theorem merge_reads_as_merge_values h sm o S O V VO :
  metrics h !! sm = Some S → metrics h !! o = Some O →
  owns_maps h S → maps_apart S O →
  value_of h S = Some V → value_of h O = Some VO →
  ∃ h',
    merge sm o h = Returns () h' ∧
    value_at h' sm = Some (merge_values V VO) ∧
    value_at h' o = Some VO ∧
    only_changes sm S h h'.
Proof.
  intros Hsm Ho Hown Hap HV HVO.
  destruct (merge_effect _ _ _ _ _ _ _ Hsm Ho Hown Hap HV HVO)
    as (h' & Hrun & Hsm' & HV' & _ & Hframe).
  exists h'. split; [done|]. split; [unfold value_at; by rewrite Hsm'|].
  split; [|done]. destruct Hframe as (Hm & Hc & _).
  assert (Hne := apart_ne _ _ _ _ _ Hsm Ho Hown Hap).
  unfold value_at. rewrite Hm, Ho by done. simpl.
  rewrite <- HVO. apply value_of_agree. intros m Hin.
  eauto using apart_not_field.
Qed.

Lemma merge_scalar_set x o :
  (merge_scalar x o != -1) = (o != -1) || (x != -1).
Proof. unfold merge_scalar. destruct (o != -1) eqn:E; simpl; [|done]. by rewrite E. Qed.

(** X6: [merge] never unsets a scalar and never removes a key: a scalar of [sm]
    is set (not -1) afterwards exactly when it was set in [sm] or in [o], and
    each map of [sm] has afterwards the keys of both maps. *)
Theorem merge_never_unsets h sm o S O V VO :
  metrics h !! sm = Some S → metrics h !! o = Some O →
  owns_maps h S → maps_apart S O →
  value_of h S = Some V → value_of h O = Some VO →
  ∃ h' V',
    merge sm o h = Returns () h' ∧ value_at h' sm = Some V' ∧
    (cpu_utilization V' != -1)
      = (cpu_utilization VO != -1) || (cpu_utilization V != -1) ∧
    (mem_utilization V' != -1)
      = (mem_utilization VO != -1) || (mem_utilization V != -1) ∧
    (qps V' != -1) = (qps VO != -1) || (qps V != -1) ∧
    (eps V' != -1) = (eps VO != -1) || (eps V != -1) ∧
    dom (utilization V') = dom (utilization VO) ∪ dom (utilization V) ∧
    dom (request_cost V') = dom (request_cost VO) ∪ dom (request_cost V) ∧
    dom (named_metrics V') = dom (named_metrics VO) ∪ dom (named_metrics V).
Proof.
  intros Hsm Ho Hown Hap HV HVO.
  destruct (merge_effect _ _ _ _ _ _ _ Hsm Ho Hown Hap HV HVO)
    as (h' & Hrun & Hsm' & HV' & _ & _).
  exists h', (merge_values V VO). split; [done|].
  split; [unfold value_at; by rewrite Hsm'|]. simpl.
  rewrite !merge_scalar_set, !dom_union_L. done.
Qed.

Lemma when_update_self h p S f c :
  metrics h !! p = Some S → f S = S →
  when c (update_metrics p f) h = Returns () h.
Proof.
  intros Hp Hf. rewrite (when_update_metrics _ _ S); [|done].
  rewrite Hf. destruct c; by rewrite with_metrics_id.
Qed.

Lemma mergeMap_self h m :
  is_Some (contents h m) → mergeMap m m h = Returns () h.
Proof.
  intros [c Hc]. destruct m as [|l].
  - by apply mergeMap_empty.
  - simpl in Hc. rewrite (mergeMap_Returns _ _ _ c c); [|done..].
    by rewrite (idemp_L (∪)), with_maps_id.
Qed.

(** X7: merging a value into itself changes nothing, whatever its maps are (nil,
    or even one map object held in two fields). *)
Theorem merge_self_noop h sm S :
  metrics h !! sm = Some S → maps_live h S →
  merge sm sm h = Returns () h.
Proof.
  intros Hsm Hlive. unfold merge.
  assert (HU : is_Some (contents h (Utilization S))).
  { unfold maps_live in Hlive. rewrite Forall_forall in Hlive. auto with fields. }
  assert (HR : is_Some (contents h (RequestCost S))).
  { unfold maps_live in Hlive. rewrite Forall_forall in Hlive. auto with fields. }
  assert (HN : is_Some (contents h (NamedMetrics S))).
  { unfold maps_live in Hlive. rewrite Forall_forall in Hlive. auto with fields. }
  do 4 (go_step ltac:(by apply load_metrics_Returns);
        go_step ltac:(apply (when_update_self _ _ S); [done|by destruct S])).
  do 2 (go_step ltac:(by apply load_metrics_Returns);
        go_step ltac:(by apply load_metrics_Returns);
        go_step ltac:(by apply mergeMap_self)).
  go_step ltac:(by apply load_metrics_Returns).
  go_step ltac:(by apply load_metrics_Returns).
  by apply mergeMap_self.
Qed.

Lemma merge_scalar_assoc x a b :
  merge_scalar (merge_scalar x a) b = merge_scalar x (merge_scalar a b).
Proof.
  unfold merge_scalar. destruct (b != -1) eqn:Eb; [by rewrite Eb|done].
Qed.

Lemma merge_values_assoc V A B :
  merge_values (merge_values V A) B = merge_values V (merge_values A B).
Proof.
  unfold merge_values; simpl.
  by rewrite !merge_scalar_assoc, !(assoc_L (∪)).
Qed.

(** X8: merging [o1] and then [o2] into [sm] makes [sm] read as one merge of
    "[o1] with [o2] merged into it" would: the later operand wins, for the
    scalars and for every key. *)
Theorem merge_twice h sm o1 o2 S O1 O2 V V1 V2 :
  metrics h !! sm = Some S →
  metrics h !! o1 = Some O1 → metrics h !! o2 = Some O2 →
  owns_maps h S → maps_apart S O1 → maps_apart S O2 →
  value_of h S = Some V → value_of h O1 = Some V1 → value_of h O2 = Some V2 →
  ∃ h1 h2,
    merge sm o1 h = Returns () h1 ∧ merge sm o2 h1 = Returns () h2 ∧
    value_at h2 sm = Some (merge_values V (merge_values V1 V2)).
Proof.
  intros Hsm Ho1 Ho2 Hown Hap1 Hap2 HV HV1 HV2.
  destruct (merge_effect _ _ _ _ _ _ _ Hsm Ho1 Hown Hap1 HV HV1)
    as (h1 & Hrun1 & Hsm1 & HVm & Hown1 & Hm1 & Hc1 & _).
  assert (Ho2' : metrics h1 !! o2 = Some O2).
  { assert (Hne := apart_ne _ _ _ _ _ Hsm Ho2 Hown Hap2). by rewrite Hm1. }
  assert (HV2' : value_of h1 O2 = Some V2).
  { rewrite <- HV2. apply value_of_agree. intros m Hin.
    eauto using apart_not_field. }
  destruct (merge_effect _ _ _ _ _ _ _ Hsm1 Ho2' Hown1 Hap2 HVm HV2')
    as (h2 & Hrun2 & Hsm2 & HV' & _ & _).
  exists h1, h2. split; [done|]. split; [done|].
  unfold value_at. rewrite Hsm2. simpl. by rewrite HV', merge_values_assoc.
Qed.

(** ** Setters, deleters and the snapshot *)

Lemma snapshot_and_report h s st St V :
  recorder_state h s st St → value_of h St = Some V →
  ∃ p h2 r h3 P,
    Recorder.ServerMetrics s h = Returns p h2 ∧ value_at h2 p = Some V ∧
    metrics h2 !! p = Some P ∧
    toLoadReportProto p h2 = Returns r h3 ∧
    reports h3 !! r = Some (report_of P).
Proof.
  intros Hrec HV.
  destruct (ServerMetrics_value _ _ _ _ _ Hrec HV) as (p & h2 & Hp & _ & Hv).
  destruct (value_at_inv _ _ _ Hv) as (P & HP & _).
  eexists p, h2, _, _, P. split; [done|]. split; [done|]. split; [done|].
  split; [by apply toLoadReportProto_Returns|]. heap_lookup.
Qed.

Lemma set_scalar_then_report h s st St f V V' field v :
  recorder_state h s st St → value_of h St = Some V →
  value_of (with_metrics <[st := f St]> h) (f St) = Some V' →
  (∀ P, value_of_scalars P = value_of_scalars (f St) →
        field (report_of P) = (if v != -1 then Some v else None)) →
  set_then_report h s
    (locked s (st ← load_state s; update_metrics st f)) V' field v.
Proof.
  intros Hrec HV HV' Hfield.
  assert (Hrec' : recorder_state (with_metrics <[st := f St]> h) s st (f St)).
  { destruct Hrec. split; heap_lookup. }
  destruct (snapshot_and_report _ _ _ _ _ Hrec' HV')
    as (p & h2 & r & h3 & P & Hp & Hv & HP & Hr & HR).
  exists (with_metrics <[st := f St]> h), p, h2, r, h3, (report_of P).
  split; [by apply set_scalar_Returns|]. do 4 (split; [done|]).
  apply Hfield. unfold value_at in Hv. rewrite HP in Hv. simpl in Hv.
  apply value_of_inv in Hv as (_ & _ & _ & Hc & Hm & Hq & He).
  apply value_of_inv in HV' as (_ & _ & _ & Hc' & Hm' & Hq' & He').
  unfold value_of_scalars. congruence.
Qed.

(** X9: [SetX(v)] stores [v] as it is, whatever [v] is (out of range, NaN, -1):
    the next snapshot has that scalar at [v] and every other scalar and map
    as before, and the load report of the snapshot has the field with value
    [v] unless [v] is -1. *)
Theorem set_scalar_round_trip h s st St V v :
  recorder_state h s st St → value_of h St = Some V →
  set_then_report h s (Recorder.SetCPUUtilization s v)
    (mkValue v (mem_utilization V) (qps V) (eps V)
       (utilization V) (request_cost V) (named_metrics V))
    v3orcapb.CpuUtilization v ∧
  set_then_report h s (Recorder.SetMemoryUtilization s v)
    (mkValue (cpu_utilization V) v (qps V) (eps V)
       (utilization V) (request_cost V) (named_metrics V))
    v3orcapb.MemUtilization v ∧
  set_then_report h s (Recorder.SetQPS s v)
    (mkValue (cpu_utilization V) (mem_utilization V) v (eps V)
       (utilization V) (request_cost V) (named_metrics V))
    v3orcapb.RpsFractional v ∧
  set_then_report h s (Recorder.SetEPS s v)
    (mkValue (cpu_utilization V) (mem_utilization V) (qps V) v
       (utilization V) (request_cost V) (named_metrics V))
    v3orcapb.Eps v.
Proof.
  intros Hrec HV.
  assert (HV0 := HV).
  apply value_of_inv in HV0 as (HU & HR & HN & Hc & Hm & Hq & He).
  repeat split;
    (eapply set_scalar_then_report; [done|done| |];
     [ unfold value_of; simpl;
       rewrite !contents_with_metrics, HU, HR, HN; simpl; congruence
     | intros P HP; unfold value_of_scalars in HP; simpl in HP;
       injection HP as E1 E2 E3 E4; unfold report_of; simpl;
       by rewrite ?E1, ?E2, ?E3, ?E4 ]).
Qed.

Lemma entry_call_then_snapshot h s st St l c' V' call :
  recorder_state h s st St →
  call h = Returns () (with_maps <[l := c']> h) →
  value_of (with_maps <[l := c']> h) St = Some V' →
  call_then_snapshot h s call V'.
Proof.
  intros Hrec Hcall HV'.
  assert (Hrec' : recorder_state (with_maps <[l := c']> h) s st St).
  { by destruct Hrec. }
  destruct (ServerMetrics_value _ _ _ _ _ Hrec' HV') as (p & h2 & Hp & _ & Hv).
  by exists (with_maps <[l := c']> h), p, h2.
Qed.

(** X10: on a recorder that owns its three maps, [SetNamedUtilization],
    [SetRequestCost] and [SetNamedMetric] insert or overwrite one entry of
    their own map, and the three deleters remove one: the next snapshot has
    that map changed at that name only, and the other two maps and the four
    scalars as before. *)
Theorem named_entry_round_trip h s st St V name val :
  recorder_state h s st St → owns_maps h St → value_of h St = Some V →
  call_then_snapshot h s (Recorder.SetNamedUtilization s name val)
    (mkValue (cpu_utilization V) (mem_utilization V) (qps V) (eps V)
       (<[name := val]> (utilization V)) (request_cost V) (named_metrics V)) ∧
  call_then_snapshot h s (Recorder.DeleteNamedUtilization s name)
    (mkValue (cpu_utilization V) (mem_utilization V) (qps V) (eps V)
       (delete name (utilization V)) (request_cost V) (named_metrics V)) ∧
  call_then_snapshot h s (Recorder.SetRequestCost s name val)
    (mkValue (cpu_utilization V) (mem_utilization V) (qps V) (eps V)
       (utilization V) (<[name := val]> (request_cost V)) (named_metrics V)) ∧
  call_then_snapshot h s (Recorder.DeleteRequestCost s name)
    (mkValue (cpu_utilization V) (mem_utilization V) (qps V) (eps V)
       (utilization V) (delete name (request_cost V)) (named_metrics V)) ∧
  call_then_snapshot h s (Recorder.SetNamedMetric s name val)
    (mkValue (cpu_utilization V) (mem_utilization V) (qps V) (eps V)
       (utilization V) (request_cost V) (<[name := val]> (named_metrics V))) ∧
  call_then_snapshot h s (Recorder.DeleteNamedMetric s name)
    (mkValue (cpu_utilization V) (mem_utilization V) (qps V) (eps V)
       (utilization V) (request_cost V) (delete name (named_metrics V))).
Proof.
  intros Hrec Hown HV.
  destruct (owns_maps_inv _ _ Hown)
    as (lU & lR & lN & cU & cR & cN & HU & HR & HN & HcU & HcR & HcN & n1 & n2 & n3).
  apply value_of_inv in HV as (HVU & HVR & HVN & Hc & Hm & Hq & He).
  rewrite HU in HVU. rewrite HR in HVR. rewrite HN in HVN.
  simpl in HVU, HVR, HVN.
  assert (cU = utilization V) as <- by congruence.
  assert (cR = request_cost V) as <- by congruence.
  assert (cN = named_metrics V) as <- by congruence.
  rewrite <- Hc, <- Hm, <- Hq, <- He.
  repeat split.
  - eapply entry_call_then_snapshot;
      [done|by eapply (set_entry_Returns _ _ _ _ Utilization)|].
    apply value_of_Some; rewrite ?HU, ?HR, ?HN; heap_lookup.
  - eapply entry_call_then_snapshot;
      [done|by eapply (delete_entry_Returns _ _ _ _ Utilization)|].
    apply value_of_Some; rewrite ?HU, ?HR, ?HN; heap_lookup.
  - eapply entry_call_then_snapshot;
      [done|by eapply (set_entry_Returns _ _ _ _ RequestCost)|].
    apply value_of_Some; rewrite ?HU, ?HR, ?HN; heap_lookup.
  - eapply entry_call_then_snapshot;
      [done|by eapply (delete_entry_Returns _ _ _ _ RequestCost)|].
    apply value_of_Some; rewrite ?HU, ?HR, ?HN; heap_lookup.
  - eapply entry_call_then_snapshot;
      [done|by eapply (set_entry_Returns _ _ _ _ NamedMetrics)|].
    apply value_of_Some; rewrite ?HU, ?HR, ?HN; heap_lookup.
  - eapply entry_call_then_snapshot;
      [done|by eapply (delete_entry_Returns _ _ _ _ NamedMetrics)|].
    apply value_of_Some; rewrite ?HU, ?HR, ?HN; heap_lookup.
Qed.

Lemma last_call_decides_field h s st St (field : ServerMetrics → gomap) l c :
  recorder_state h s st St → field St = mapref l → maps h !! l = Some c →
  last_call_decides h s
    (λ s k v, locked s (st ← load_state s; st_ ← load_metrics st;
                        map_assign (field st_) k v))
    (λ s k, locked s (st ← load_state s; st_ ← load_metrics st;
                      map_delete (field st_) k)).
Proof.
  intros Hrec Hf Hl k v1 v2.
  assert (Hrec' : ∀ c', recorder_state (with_maps <[l := c']> h) s st St).
  { intros c'. by destruct Hrec. }
  assert (Hl' : ∀ c', maps (with_maps <[l := c']> h) !! l = Some c').
  { intros c'. simpl. apply lookup_insert_eq. }
  assert (Hset := λ h0 c0 v H1 H2,
            set_entry_Returns h0 s st St field l c0 k v H1 Hf H2).
  assert (Hdel := λ h0 c0 H1 H2,
            delete_entry_Returns h0 s st St field l c0 k H1 Hf H2).
  split.
  - exists (with_maps <[l := <[k := v2]> c]> h).
    split; [by apply Hset|]. split.
    + go_step ltac:(by apply Hset). rewrite (Hset _ _ _ (Hrec' _) (Hl' _)).
      unfold with_maps; simpl. by rewrite !insert_insert_eq.
    + go_step ltac:(by apply Hdel). rewrite (Hset _ _ _ (Hrec' _) (Hl' _)).
      unfold with_maps; simpl. by rewrite insert_insert_eq, insert_delete_eq.
  - exists (with_maps <[l := delete k c]> h).
    split; [by apply Hdel|]. split.
    + go_step ltac:(by apply Hset). rewrite (Hdel _ _ (Hrec' _) (Hl' _)).
      unfold with_maps; simpl. by rewrite insert_insert_eq, delete_insert_eq.
    + go_step ltac:(by apply Hdel). rewrite (Hdel _ _ (Hrec' _) (Hl' _)).
      unfold with_maps; simpl. by rewrite insert_insert_eq, delete_delete_eq.
Qed.

(** X11: for each of the three maps of a recorder, the last call made for a
    name decides: setting a name after setting or deleting it gives the heap of
    the last set alone, and deleting a name after setting or deleting it
    gives the heap of one delete alone. *)
Theorem named_entry_last_call_decides h s st St :
  recorder_state h s st St → Forall (allocated h) (map_fields St) →
  last_call_decides h s
    Recorder.SetNamedUtilization Recorder.DeleteNamedUtilization ∧
  last_call_decides h s Recorder.SetRequestCost Recorder.DeleteRequestCost ∧
  last_call_decides h s Recorder.SetNamedMetric Recorder.DeleteNamedMetric.
Proof.
  intros Hrec Hal. rewrite Forall_forall in Hal.
  destruct (Hal _ (Utilization_field St)) as (lU & HU & [cU HcU]).
  destruct (Hal _ (RequestCost_field St)) as (lR & HR & [cR HcR]).
  destruct (Hal _ (NamedMetrics_field St)) as (lN & HN & [cN HcN]).
  split; [|split].
  - by eapply (last_call_decides_field _ _ _ _ Utilization).
  - by eapply (last_call_decides_field _ _ _ _ RequestCost).
  - by eapply (last_call_decides_field _ _ _ _ NamedMetrics).
Qed.

Lemma last_value_decides_field h s st St (set : float64 → ServerMetrics → ServerMetrics) :
  recorder_state h s st St →
  (∀ v1 v2 S, set v2 (set v1 S) = set v2 S) →
  last_value_decides h s
    (λ s v, locked s (st ← load_state s; update_metrics st (set v))).
Proof.
  intros Hrec Hset v1 v2.
  exists (with_metrics <[st := set v2 St]> h).
  split; [by apply set_scalar_Returns|].
  go_step ltac:(by apply set_scalar_Returns).
  rewrite (set_scalar_Returns _ s st (set v1 St)).
  - unfold with_metrics; simpl. by rewrite insert_insert_eq, Hset.
  - destruct Hrec. split; heap_lookup.
Qed.

(** X12: for each of the four scalars, the last value set decides: setting a
    scalar twice gives the heap of the second call alone (and so does a set
    after a delete, or a delete after a set, a delete being a set of -1). *)
Theorem scalar_last_value_decides h s st St :
  recorder_state h s st St →
  last_value_decides h s Recorder.SetCPUUtilization ∧
  last_value_decides h s Recorder.SetMemoryUtilization ∧
  last_value_decides h s Recorder.SetQPS ∧
  last_value_decides h s Recorder.SetEPS.
Proof.
  intros Hrec.
  repeat split; by eapply last_value_decides_field.
Qed.

(** ** The mutex and nil maps *)

Lemma run_call_shape h s st St c :
  recorder_state h s st St → Forall (allocated h) (map_fields St) →
  ∃ h', Call.run s c h = Returns () h' ∧
        recorders h' = recorders h ∧ reports h' = reports h.
Proof.
  intros Hrec Hal.
  assert (Hal' := Hal). rewrite Forall_forall in Hal'.
  destruct (Hal' _ (Utilization_field St)) as (lU & HU & [cU HcU]).
  destruct (Hal' _ (RequestCost_field St)) as (lR & HR & [cR HcR]).
  destruct (Hal' _ (NamedMetrics_field St)) as (lN & HN & [cN HcN]).
  destruct c; simpl.
  1-8: (eexists; split; [by apply set_scalar_Returns|done]).
  - eexists; split; [by eapply (set_entry_Returns _ _ _ _ Utilization)|done].
  - eexists; split; [by eapply (delete_entry_Returns _ _ _ _ Utilization)|done].
  - eexists; split; [by eapply (set_entry_Returns _ _ _ _ RequestCost)|done].
  - eexists; split; [by eapply (delete_entry_Returns _ _ _ _ RequestCost)|done].
  - eexists; split; [by eapply (set_entry_Returns _ _ _ _ NamedMetrics)|done].
  - eexists; split; [by eapply (delete_entry_Returns _ _ _ _ NamedMetrics)|done].
  - destruct (maps_live_inv _ _ (allocated_live _ _ Hal))
      as (oU & oR & oN & HoU & HoR & HoN).
    destruct (ServerMetrics_Returns _ _ _ _ _ _ _ Hrec HoU HoR HoN)
      as (p & l1 & l2 & l3 & Hrun & _).
    eexists. split; [by erewrite bind_Returns|done].
Qed.




Lemma set_entry_nil_Panics h s st St (field : ServerMetrics → gomap) k v :
  recorder_state h s st St → field St = nilmap →
  locked s (st ← load_state s; st_ ← load_metrics st;
            map_assign (field st_) k v) h = Panics.
Proof.
  intros [Hs Hst] Hf. unfold locked.
  go_step ltac:(unfold Lock; rewrite Hs; reflexivity). simpl.
  apply bind_Panics.
  go_step ltac:(apply load_state_Returns; heap_lookup).
  go_step ltac:(by apply load_metrics_Returns).
  simpl. by rewrite Hf.
Qed.

(** X14: what the comment "the following maps must never be nil" guards
    against: on a recorder whose map is nil, the setter of a named entry
    panics (assignment to an entry of a nil map), while the deleter returns
    and changes nothing. *)
Theorem named_entry_calls_on_nil_map h s st St name val :
  recorder_state h s st St →
  (Utilization St = nilmap →
   Recorder.SetNamedUtilization s name val h = Panics ∧
   Recorder.DeleteNamedUtilization s name h = Returns () h) ∧
  (RequestCost St = nilmap →
   Recorder.SetRequestCost s name val h = Panics ∧
   Recorder.DeleteRequestCost s name h = Returns () h) ∧
  (NamedMetrics St = nilmap →
   Recorder.SetNamedMetric s name val h = Panics ∧
   Recorder.DeleteNamedMetric s name h = Returns () h).
Proof.
  intros Hrec. repeat split.
  - by eapply (set_entry_nil_Panics _ _ _ _ Utilization).
  - by eapply (delete_entry_nil _ _ _ _ Utilization).
  - by eapply (set_entry_nil_Panics _ _ _ _ RequestCost).
  - by eapply (delete_entry_nil _ _ _ _ RequestCost).
  - by eapply (set_entry_nil_Panics _ _ _ _ NamedMetrics).
  - by eapply (delete_entry_nil _ _ _ _ NamedMetrics).
Qed.

(** ** Snapshots, load reports and other recorders *)

Lemma run_calls_shape s st cs : ∀ h St,
  recorder_state h s st St → Forall (allocated h) (map_fields St) →
  ∃ h', run_calls s cs h = Returns () h' ∧ call_post s st St h h' ∧
        recorders h' = recorders h ∧ reports h' = reports h.
Proof.
  induction cs as [|c cs IH]; intros h St Hrec Hal; simpl.
  - exists h. split; [done|]. split; [by apply call_post_refl|done].
  - destruct (run_call_post s st _ _ c Hrec Hal) as (h1 & Hrun & Hpost).
    destruct (run_call_shape _ _ _ _ c Hrec Hal) as (h1' & Hrun' & Hr & Hp).
    rewrite Hrun in Hrun'. injection Hrun' as <-.
    assert (Hpost' := Hpost).
    destruct Hpost' as (St1 & Hrec1 & Hf1 & Hal1 & _).
    destruct (IH _ _ Hrec1 Hal1) as (h2 & Hrun2 & Hpost2 & Hr2 & Hp2).
    exists h2. split; [by erewrite bind_Returns|].
    split; [by eapply call_post_trans|]. split; congruence.
Qed.

(** The snapshot of an idle recorder, with what it allocates and what it
    keeps. *)
Lemma snapshot_effect h s st St V :
  recorder_state h s st St → value_of h St = Some V →
  ∃ p h1 P,
    Recorder.ServerMetrics s h = Returns p h1 ∧
    metrics h !! p = None ∧ metrics h1 !! p = Some P ∧
    value_of h1 P = Some V ∧ owns_maps h1 P ∧
    Forall (λ m, ∃ l, m = mapref l ∧ maps h !! l = None) (map_fields P) ∧
    (∀ q, q ≠ p → metrics h1 !! q = metrics h !! q) ∧
    (∀ m c, contents h m = Some c → contents h1 m = Some c) ∧
    recorders h1 = recorders h ∧ reports h1 = reports h.
Proof.
  intros Hrec HV. assert (HV0 := HV).
  apply value_of_inv in HV0 as (HU & HR & HN & Hc & Hm & Hq & He).
  destruct (ServerMetrics_Returns _ _ _ _ _ _ _ Hrec HU HR HN)
    as (p & l1 & l2 & l3 & Hrun & Fp & F1 & F2 & F3 & n12 & n13 & n23).
  eexists p, _, _. split; [exact Hrun|]. split; [done|].
  split; [heap_lookup|]. split; [|split; [|split; [|split; [|split]]]].
  - rewrite Hc, Hm, Hq, He. destruct V; simpl in *.
    erewrite value_of_Some; [done|simpl; heap_lookup..].
  - split.
    + repeat apply Forall_cons_2; [..|apply Forall_nil_2];
        (eexists; split; [done|]; eexists; simpl; heap_lookup).
    + unfold map_fields; simpl.
      repeat (apply NoDup_cons; split); try apply NoDup_nil_2;
        rewrite ?not_elem_of_cons, ?elem_of_nil; repeat split; congruence.
  - repeat apply Forall_cons_2; [..|apply Forall_nil_2]; eauto.
  - intros q Hq'. simpl. by rewrite lookup_insert_ne.
  - intros [|l] c Hl; [done|]. simpl in *.
    rewrite !lookup_insert_ne; [done|congruence..].
  - done.
Qed.

(** X15: a load report built from a snapshot is cut off from the recorder: it
    reads as the recorder did when the snapshot was taken, and goes on
    reading so whatever calls are made on the recorder afterwards. *)
Theorem report_of_snapshot_stable h s st St V :
  recorder_state h s st St → Forall (allocated h) (map_fields St) →
  value_of h St = Some V →
  ∃ p h1 r h2,
    Recorder.ServerMetrics s h = Returns p h1 ∧
    toLoadReportProto p h1 = Returns r h2 ∧
    report_reads h2 r V V ∧
    ∀ cs, ∃ h3, run_calls s cs h2 = Returns () h3 ∧ report_reads h3 r V V.
Proof.
  intros Hrec Hal HV.
  destruct (snapshot_effect _ _ _ _ _ Hrec HV)
    as (p & h1 & P & Hrun & Fp & HP & HVP & HownP & Hfresh & Hm1 & Hc1 & Hr1 & Hp1).
  destruct Hrec as [Hs Hst].
  assert (Hne : st ≠ p) by congruence.
  set (h2 := with_reports <[fresh (dom (reports h1)) := report_of P]> h1).
  assert (Hrec2 : recorder_state h2 s st St).
  { split; simpl; [by rewrite Hr1|by rewrite Hm1]. }
  assert (Hal2 : Forall (allocated h2) (map_fields St)).
  { eapply Forall_impl; [exact Hal|]. intros m (l & -> & [c Hl]).
    exists l. split; [done|]. exists c. by apply (Hc1 (mapref l)). }
  destruct (owns_maps_inv _ _ HownP)
    as (l1 & l2 & l3 & c1 & c2 & c3 & H1 & H2 & H3 & Hl1 & Hl2 & Hl3 & _).
  assert (Hout : ∀ l, mapref l ∈ map_fields P → mapref l ∉ map_fields St).
  { intros l HlP HlS. rewrite Forall_forall in Hfresh, Hal.
    destruct (Hfresh _ HlP) as (l' & [= <-] & Hnone).
    destruct (Hal _ HlS) as (l' & [= <-] & [c Hc]). congruence. }
  assert (In1 := Utilization_field P). rewrite H1 in In1.
  assert (In2 := RequestCost_field P). rewrite H2 in In2.
  assert (In3 := NamedMetrics_field P). rewrite H3 in In3.
  apply value_of_inv in HVP as (HU & HR & HN & Hc & Hm & Hq & He).
  rewrite H1 in HU. rewrite H2 in HR. rewrite H3 in HN. simpl in HU, HR, HN.
  set (r := fresh (dom (reports h1))) in *.
  assert (Hreads : ∀ h3, reports h3 = reports h2 →
            maps h3 !! l1 = Some (utilization V) →
            maps h3 !! l2 = Some (request_cost V) →
            maps h3 !! l3 = Some (named_metrics V) →
            report_reads h3 r V V).
  { intros h3 Hr3 M1 M2 M3. exists (report_of P).
    split; [rewrite Hr3; subst h2; heap_lookup|].
    unfold report_of; simpl. rewrite Hc, Hm, Hq, He, H1, H2, H3. by simpl. }
  exists p, h1, r, h2.
  split; [done|]. split; [by apply toLoadReportProto_Returns|].
  split; [by apply Hreads|].
  intros cs.
  destruct (run_calls_shape s st cs _ _ Hrec2 Hal2)
    as (h3 & Hrun3 & (St3 & _ & _ & _ & _ & Hkeep) & _ & Hp3).
  exists h3. split; [done|]. apply Hreads; [done|apply Hkeep; auto..].
Qed.

Lemma value_of_lift h h' S V :
  value_of h S = Some V →
  (∀ m c, m ∈ map_fields S → contents h m = Some c → contents h' m = Some c) →
  value_of h' S = Some V.
Proof.
  intros HV Hc.
  apply value_of_inv in HV as (HU & HR & HN & E1 & E2 & E3 & E4).
  destruct V as [c1 c2 c3 c4 u r n]; simpl in *. subst c1 c2 c3 c4.
  apply value_of_Some; apply Hc; auto with fields.
Qed.

(** X16: a load report is not a copy of the struct it is built from: it holds the
    scalars by value and the maps by reference.  After [sm.merge(o)], a report
    built from [sm] before the merge still has the old scalars of [sm], but
    its three maps read as the merged maps. *)
Theorem report_shares_maps h sm o S O V VO :
  metrics h !! sm = Some S → metrics h !! o = Some O →
  owns_maps h S → maps_apart S O →
  value_of h S = Some V → value_of h O = Some VO →
  ∃ r h1 h2,
    toLoadReportProto sm h = Returns r h1 ∧ report_reads h1 r V V ∧
    merge sm o h1 = Returns () h2 ∧
    report_reads h2 r V (merge_values V VO).
Proof.
  intros Hsm Ho Hown Hap HV HVO.
  set (r := fresh (dom (reports h))).
  set (h1 := with_reports <[r := report_of S]> h).
  assert (HV1 : value_of h1 S = Some V).
  { rewrite <- HV. apply value_of_agree. intros m _. apply contents_with_reports. }
  assert (HVO1 : value_of h1 O = Some VO).
  { rewrite <- HVO. apply value_of_agree. intros m _. apply contents_with_reports. }
  assert (Hown1 : owns_maps h1 S) by exact Hown.
  destruct (merge_effect h1 sm o S O V VO Hsm Ho Hown1 Hap HV1 HVO1)
    as (h2 & Hrun & Hsm2 & HV2 & _ & _ & _ & _ & Hrep).
  assert (Hscalars := HV1).
  apply value_of_inv in Hscalars as (HU & HR & HN & Hc & Hm & Hq & He).
  apply value_of_inv in HV2 as (HU2 & HR2 & HN2 & _).
  simpl in HU2, HR2, HN2.
  exists r, h1, h2. split; [by apply toLoadReportProto_Returns|].
  split; [|split; [done|]].
  - exists (report_of S). split; [subst h1; heap_lookup|].
    unfold report_of; simpl. by rewrite Hc, Hm, Hq, He.
  - exists (report_of S). split; [rewrite Hrep; subst h1; heap_lookup|].
    unfold report_of; simpl. by rewrite Hc, Hm, Hq, He.
Qed.

Lemma NewServerMetricsRecorder_fresh h :
  ∃ s st St h1,
    NewServerMetricsRecorder h = Returns s h1 ∧
    recorders h !! s = None ∧ metrics h !! st = None ∧
    recorder_state h1 s st St ∧ Forall (allocated h1) (map_fields St) ∧
    Forall (λ m, ∃ l, m = mapref l ∧ maps h !! l = None) (map_fields St) ∧
    (∀ q, q ≠ st → metrics h1 !! q = metrics h !! q) ∧
    (∀ m c, contents h m = Some c → contents h1 m = Some c) ∧
    (∀ q, q ≠ s → recorders h1 !! q = recorders h !! q).
Proof.
  pose (l1 := fresh (dom (maps h))).
  pose (l2 := fresh (dom (<[l1 := ∅]> (maps h)))).
  pose (l3 := fresh (dom (<[l2 := ∅]> (<[l1 := ∅]> (maps h))))).
  assert (F1 := fresh_lookup (maps h)).
  assert (F2 := fresh_lookup (<[l1 := ∅]> (maps h))).
  assert (F3 := fresh_lookup (<[l2 := ∅]> (<[l1 := ∅]> (maps h)))).
  fold l1 in F1. fold l2 in F2. fold l3 in F3.
  apply lookup_insert_None in F2 as [F2 n12].
  apply lookup_insert_None in F3 as [F3 n23].
  apply lookup_insert_None in F3 as [F3 n13].
  exists (fresh (dom (recorders h))), (fresh (dom (metrics h))),
    (mkServerMetrics (-1) (-1) (-1) (-1) (mapref l1) (mapref l2) (mapref l3)),
    (mkHeap (<[l3 := ∅]> (<[l2 := ∅]> (<[l1 := ∅]> (maps h))))
       (<[fresh (dom (metrics h)) :=
            mkServerMetrics (-1) (-1) (-1) (-1)
              (mapref l1) (mapref l2) (mapref l3)]> (metrics h))
       (<[fresh (dom (recorders h)) :=
            mkRecorder false (fresh (dom (metrics h)))]> (recorders h))
       (reports h)).
  split; [reflexivity|]. do 2 (split; [apply fresh_lookup|]).
  split; [split; heap_lookup|].
  split; [|split; [|split; [|split]]].
  - repeat apply Forall_cons_2; [..|apply Forall_nil_2];
      (eexists; split; [done|]; eexists; simpl; heap_lookup).
  - repeat apply Forall_cons_2; [..|apply Forall_nil_2]; eauto.
  - intros q Hq. simpl. by rewrite lookup_insert_ne.
  - intros [|l] c Hl; [done|]. simpl in *.
    rewrite !lookup_insert_ne; [done|congruence..].
  - intros q Hq. simpl. by rewrite lookup_insert_ne.
Qed.

(** X17: recorders share nothing: a recorder made by [NewServerMetricsRecorder]
    while another one exists is a different recorder, and no sequence of
    calls on the new one changes the mutex, the state pointer or what the
    state of the other one reads as. *)
Theorem new_recorder_independent h s1 st1 St1 V :
  recorder_state h s1 st1 St1 → value_of h St1 = Some V →
  ∃ s2 h1,
    NewServerMetricsRecorder h = Returns s2 h1 ∧ s2 ≠ s1 ∧
    ∀ cs, ∃ h2,
      run_calls s2 cs h1 = Returns () h2 ∧
      recorder_state h2 s1 st1 St1 ∧ value_of h2 St1 = Some V.
Proof.
  intros [Hs1 Hst1] HV.
  destruct (NewServerMetricsRecorder_fresh h)
    as (s2 & st2 & St2 & h1 & Hrun & Fs & Fst & Hrec2 & Hal2 & Hfresh & Hm & Hc & Hr).
  assert (Hns : s1 ≠ s2) by congruence.
  assert (Hnst : st1 ≠ st2) by congruence.
  exists s2, h1. split; [done|]. split; [done|].
  intros cs.
  destruct (run_calls_shape s2 st2 cs _ _ Hrec2 Hal2)
    as (h2 & Hrun2 & (St2' & _ & _ & _ & Hkm & Hkl) & Hr2 & _).
  exists h2. split; [done|].
  assert (HV0 := HV).
  apply value_of_inv in HV0 as (HU & HR & HN & _).
  assert (Hkeep : ∀ m c, m ∈ map_fields St1 → contents h m = Some c →
                         contents h2 m = Some c).
  { intros [|l] c Hin Hl; [done|]. simpl. apply Hkl; [|by apply (Hc (mapref l))].
    intros HlS. rewrite Forall_forall in Hfresh.
    destruct (Hfresh _ HlS) as (l' & [= <-] & Hnone). simpl in Hl. congruence. }
  split; [split|].
  - by rewrite Hr2, Hr.
  - apply Hkm; [done|]. by rewrite Hm.
  - by apply (value_of_lift h).
Qed.

(** X18: merging into a snapshot needs no care about sharing: the snapshot of a
    recorder can be merged with any struct [o] of the heap, the recorder's own
    state included; the snapshot then reads as the merge of the two, and the
    recorder reads as before. *)
Theorem snapshot_then_merge h s st St o O V VO :
  recorder_state h s st St → value_of h St = Some V →
  metrics h !! o = Some O → value_of h O = Some VO →
  ∃ p h1 h2,
    Recorder.ServerMetrics s h = Returns p h1 ∧
    merge p o h1 = Returns () h2 ∧
    value_at h2 p = Some (merge_values V VO) ∧
    value_at h2 o = Some VO ∧
    recorder_state h2 s st St ∧ value_at h2 st = Some V.
Proof.
  intros Hrec HV Ho HVO.
  destruct (snapshot_effect _ _ _ _ _ Hrec HV)
    as (p & h1 & P & Hrun & Fp & HP & HVP & HownP & Hfresh & Hm1 & Hc1 & Hr1 & _).
  destruct Hrec as [Hs Hst].
  assert (Hnst : st ≠ p) by congruence.
  assert (Hno : o ≠ p) by congruence.
  assert (Hlift : ∀ X W, value_of h X = Some W → value_of h1 X = Some W).
  { intros X W HW. apply (value_of_lift h); [done|]. auto. }
  assert (Hap : ∀ X W, value_of h X = Some W → maps_apart P X).
  { intros X W HW m HmP HmX. destruct m as [|l]; [done|].
    rewrite Forall_forall in Hfresh.
    destruct (Hfresh _ HmP) as (l' & [= <-] & Hnone).
    apply value_of_inv in HW as (HU & HR & HN & _).
    unfold map_fields in HmX. rewrite !elem_of_cons, elem_of_nil in HmX.
    destruct HmX as [E|[E|[E|[]]]]; rewrite <- E in *; simpl in *; congruence. }
  assert (Ho1 : metrics h1 !! o = Some O) by by rewrite Hm1.
  destruct (merge_effect h1 p o P O V VO HP Ho1 HownP (Hap _ _ HVO) HVP
              (Hlift _ _ HVO))
    as (h2 & Hmerge & Hp2 & HV2 & _ & Hm2 & Hc2 & Hr2 & _).
  assert (Hkeep : ∀ X W, value_of h X = Some W → value_of h2 X = Some W).
  { intros X W HW. rewrite <- (Hlift _ _ HW). apply value_of_agree.
    intros m Hin. apply Hc2.
    exact (apart_not_field h1 P X m HownP (Hap _ _ HW) Hin). }
  exists p, h1, h2. split; [done|]. split; [done|].
  split; [unfold value_at; by rewrite Hp2|].
  split; [unfold value_at; rewrite Hm2, Ho1 by done; simpl; eauto|].
  assert (Hst2 : metrics h2 !! st = Some St) by by rewrite Hm2, Hm1.
  split; [split; [by rewrite Hr2, Hr1|done]|].
  unfold value_at. rewrite Hst2. simpl. eauto.
Qed.

(** ** Concrete runs of the further properties *)

Ltac eval_owns := split; [eval_allocated|eval_NoDup].

Lemma merge_reads_as_merge_values_witness :
  ∃ h',
    merge 1 2 example_heap = Returns () h' ∧
    value_at h' 1 = Some (merge_values example_A_value example_B_value) ∧
    value_at h' 2 = Some example_B_value ∧
    only_changes 1 example_A example_heap h'.
Proof.
  apply (merge_reads_as_merge_values example_heap 1%positive 2%positive
           example_A example_B).
  - eval_lookup.
  - eval_lookup.
  - eval_owns.
  - eval_apart.
  - eval_lookup.
  - eval_lookup.
Defined.

Lemma merge_never_unsets_witness :
  ∃ h' V',
    merge 1 2 example_heap = Returns () h' ∧ value_at h' 1 = Some V' ∧
    (cpu_utilization V' != -1)
      = (cpu_utilization example_B_value != -1)
        || (cpu_utilization example_A_value != -1) ∧
    (mem_utilization V' != -1)
      = (mem_utilization example_B_value != -1)
        || (mem_utilization example_A_value != -1) ∧
    (qps V' != -1) = (qps example_B_value != -1) || (qps example_A_value != -1) ∧
    (eps V' != -1) = (eps example_B_value != -1) || (eps example_A_value != -1) ∧
    dom (utilization V')
      = dom (utilization example_B_value) ∪ dom (utilization example_A_value) ∧
    dom (request_cost V')
      = dom (request_cost example_B_value) ∪ dom (request_cost example_A_value) ∧
    dom (named_metrics V')
      = dom (named_metrics example_B_value)
        ∪ dom (named_metrics example_A_value).
Proof.
  apply (merge_never_unsets example_heap 1%positive 2%positive
           example_A example_B).
  - eval_lookup.
  - eval_lookup.
  - eval_owns.
  - eval_apart.
  - eval_lookup.
  - eval_lookup.
Defined.

Lemma merge_self_noop_witness :
  merge 3 3 example_heap3 = Returns () example_heap3.
Proof.
  apply (merge_self_noop example_heap3 3%positive example_C).
  - eval_lookup.
  - eval_live.
Defined.

Lemma merge_twice_witness :
  ∃ h1 h2,
    merge 1 2 example_heap3 = Returns () h1 ∧ merge 1 3 h1 = Returns () h2 ∧
    value_at h2 1
    = Some (merge_values example_A_value
              (merge_values example_B_value example_C_value)).
Proof.
  apply (merge_twice example_heap3 1%positive 2%positive 3%positive
           example_A example_B example_C).
  - eval_lookup.
  - eval_lookup.
  - eval_lookup.
  - eval_owns.
  - eval_apart.
  - eval_apart.
  - eval_lookup.
  - eval_lookup.
  - eval_lookup.
Defined.

Lemma set_scalar_round_trip_witness :
  set_then_report recorder_heap 1 (Recorder.SetCPUUtilization 1 0.75)
    (mkValue 0.75 (mem_utilization recorder_value) (qps recorder_value)
       (eps recorder_value) (utilization recorder_value)
       (request_cost recorder_value) (named_metrics recorder_value))
    v3orcapb.CpuUtilization 0.75 ∧
  set_then_report recorder_heap 1 (Recorder.SetMemoryUtilization 1 0.75)
    (mkValue (cpu_utilization recorder_value) 0.75 (qps recorder_value)
       (eps recorder_value) (utilization recorder_value)
       (request_cost recorder_value) (named_metrics recorder_value))
    v3orcapb.MemUtilization 0.75 ∧
  set_then_report recorder_heap 1 (Recorder.SetQPS 1 0.75)
    (mkValue (cpu_utilization recorder_value) (mem_utilization recorder_value)
       0.75 (eps recorder_value) (utilization recorder_value)
       (request_cost recorder_value) (named_metrics recorder_value))
    v3orcapb.RpsFractional 0.75 ∧
  set_then_report recorder_heap 1 (Recorder.SetEPS 1 0.75)
    (mkValue (cpu_utilization recorder_value) (mem_utilization recorder_value)
       (qps recorder_value) 0.75 (utilization recorder_value)
       (request_cost recorder_value) (named_metrics recorder_value))
    v3orcapb.Eps 0.75.
Proof.
  apply (set_scalar_round_trip recorder_heap 1%positive 1%positive
           recorder_struct recorder_value 0.75%float).
  - eval_recorder.
  - eval_lookup.
Defined.

Lemma named_entry_round_trip_witness :
  call_then_snapshot recorder_heap 1 (Recorder.SetNamedUtilization 1 "y" 0.75)
    (mkValue (cpu_utilization recorder_value) (mem_utilization recorder_value)
       (qps recorder_value) (eps recorder_value)
       (<["y" := 0.75%float]> (utilization recorder_value))
       (request_cost recorder_value) (named_metrics recorder_value)) ∧
  call_then_snapshot recorder_heap 1 (Recorder.DeleteNamedUtilization 1 "y")
    (mkValue (cpu_utilization recorder_value) (mem_utilization recorder_value)
       (qps recorder_value) (eps recorder_value)
       (delete "y" (utilization recorder_value))
       (request_cost recorder_value) (named_metrics recorder_value)) ∧
  call_then_snapshot recorder_heap 1 (Recorder.SetRequestCost 1 "y" 0.75)
    (mkValue (cpu_utilization recorder_value) (mem_utilization recorder_value)
       (qps recorder_value) (eps recorder_value)
       (utilization recorder_value)
       (<["y" := 0.75%float]> (request_cost recorder_value))
       (named_metrics recorder_value)) ∧
  call_then_snapshot recorder_heap 1 (Recorder.DeleteRequestCost 1 "y")
    (mkValue (cpu_utilization recorder_value) (mem_utilization recorder_value)
       (qps recorder_value) (eps recorder_value)
       (utilization recorder_value)
       (delete "y" (request_cost recorder_value))
       (named_metrics recorder_value)) ∧
  call_then_snapshot recorder_heap 1 (Recorder.SetNamedMetric 1 "y" 0.75)
    (mkValue (cpu_utilization recorder_value) (mem_utilization recorder_value)
       (qps recorder_value) (eps recorder_value)
       (utilization recorder_value) (request_cost recorder_value)
       (<["y" := 0.75%float]> (named_metrics recorder_value))) ∧
  call_then_snapshot recorder_heap 1 (Recorder.DeleteNamedMetric 1 "y")
    (mkValue (cpu_utilization recorder_value) (mem_utilization recorder_value)
       (qps recorder_value) (eps recorder_value)
       (utilization recorder_value) (request_cost recorder_value)
       (delete "y" (named_metrics recorder_value))).
Proof.
  apply (named_entry_round_trip recorder_heap 1%positive 1%positive
           recorder_struct recorder_value "y" 0.75%float).
  - eval_recorder.
  - eval_owns.
  - eval_lookup.
Defined.

Lemma named_entry_last_call_decides_witness :
  last_call_decides recorder_heap 1
    Recorder.SetNamedUtilization Recorder.DeleteNamedUtilization ∧
  last_call_decides recorder_heap 1
    Recorder.SetRequestCost Recorder.DeleteRequestCost ∧
  last_call_decides recorder_heap 1
    Recorder.SetNamedMetric Recorder.DeleteNamedMetric.
Proof.
  apply (named_entry_last_call_decides recorder_heap 1%positive 1%positive
           recorder_struct).
  - eval_recorder.
  - eval_allocated.
Defined.

Lemma scalar_last_value_decides_witness :
  last_value_decides recorder_heap 1 Recorder.SetCPUUtilization ∧
  last_value_decides recorder_heap 1 Recorder.SetMemoryUtilization ∧
  last_value_decides recorder_heap 1 Recorder.SetQPS ∧
  last_value_decides recorder_heap 1 Recorder.SetEPS.
Proof.
  apply (scalar_last_value_decides recorder_heap 1%positive 1%positive
           recorder_struct).
  eval_recorder.
Defined.

Lemma set_named_metrics_any_order_witness :
  ∃ h1 p h2 V,
    run_calls 1
      (named_metric_calls [("m2", 2%float); ("m1", 1%float)]) recorder_heap
    = Returns () h1 ∧
    Recorder.ServerMetrics 1 h1 = Returns p h2 ∧
    value_at h2 p = Some V ∧
    ∀ k v, (k, v) ∈ [("m1", 1%float); ("m2", 2%float)] →
           named_metrics V !! k = Some v.
Proof.
  apply (set_named_metrics_any_order recorder_heap 1%positive 1%positive
           recorder_struct).
  - eval_recorder.
  - eval_allocated.
  - eval_NoDup.
  - apply perm_swap.
Defined.


Lemma named_entry_calls_on_nil_map_witness :
  (Recorder.SetNamedUtilization 1 "x" 0.5 nil_maps_heap = Panics ∧
   Recorder.DeleteNamedUtilization 1 "x" nil_maps_heap
   = Returns () nil_maps_heap) ∧
  (Recorder.SetRequestCost 1 "x" 0.5 nil_maps_heap = Panics ∧
   Recorder.DeleteRequestCost 1 "x" nil_maps_heap = Returns () nil_maps_heap) ∧
  (Recorder.SetNamedMetric 1 "x" 0.5 nil_maps_heap = Panics ∧
   Recorder.DeleteNamedMetric 1 "x" nil_maps_heap = Returns () nil_maps_heap).
Proof.
  destruct (named_entry_calls_on_nil_map nil_maps_heap 1%positive 1%positive
              nil_maps_struct "x" 0.5%float) as (HU & HR & HN).
  - eval_recorder.
  - split; [|split]; [apply HU|apply HR|apply HN]; reflexivity.
Defined.

Lemma report_of_snapshot_stable_witness :
  ∃ p h1 r h2,
    Recorder.ServerMetrics 1 recorder_heap = Returns p h1 ∧
    toLoadReportProto p h1 = Returns r h2 ∧
    report_reads h2 r recorder_value recorder_value ∧
    ∀ cs, ∃ h3, run_calls 1 cs h2 = Returns () h3 ∧
                report_reads h3 r recorder_value recorder_value.
Proof.
  apply (report_of_snapshot_stable recorder_heap 1%positive 1%positive
           recorder_struct).
  - eval_recorder.
  - eval_allocated.
  - eval_lookup.
Defined.

Lemma report_shares_maps_witness :
  ∃ r h1 h2,
    toLoadReportProto 1 example_heap = Returns r h1 ∧
    report_reads h1 r example_A_value example_A_value ∧
    merge 1 2 h1 = Returns () h2 ∧
    report_reads h2 r example_A_value
      (merge_values example_A_value example_B_value).
Proof.
  apply (report_shares_maps example_heap 1%positive 2%positive
           example_A example_B).
  - eval_lookup.
  - eval_lookup.
  - eval_owns.
  - eval_apart.
  - eval_lookup.
  - eval_lookup.
Defined.

Lemma new_recorder_independent_witness :
  ∃ s2 h1,
    NewServerMetricsRecorder recorder_heap = Returns s2 h1 ∧ s2 ≠ 1%positive ∧
    ∀ cs, ∃ h2,
      run_calls s2 cs h1 = Returns () h2 ∧
      recorder_state h2 1 1 recorder_struct ∧
      value_of h2 recorder_struct = Some recorder_value.
Proof.
  apply (new_recorder_independent recorder_heap 1%positive 1%positive
           recorder_struct recorder_value).
  - eval_recorder.
  - eval_lookup.
Defined.

(** The snapshot of the recorder merged with the recorder's own state. *)
Lemma snapshot_then_merge_witness :
  ∃ p h1 h2,
    Recorder.ServerMetrics 1 recorder_heap = Returns p h1 ∧
    merge p 1 h1 = Returns () h2 ∧
    value_at h2 p = Some (merge_values recorder_value recorder_value) ∧
    value_at h2 1 = Some recorder_value ∧
    recorder_state h2 1 1 recorder_struct ∧
    value_at h2 1 = Some recorder_value.
Proof.
  apply (snapshot_then_merge recorder_heap 1%positive 1%positive
           recorder_struct 1%positive recorder_struct).
  - eval_recorder.
  - eval_lookup.
  - eval_lookup.
  - eval_lookup.
Defined.
